(** * laseg: the resampling-and-cropping pipeline of [etl.py]

    A shallow embedding of the volume pipeline of [src/etl.py] and the
    statements checked against it.

    Modelling conventions.
    - A Python [float] is an exact rational ([Q]); no rounding error of
      the binary representation is modelled.  The concrete inputs used in
      the examples are dyadic, so the Python run computes the same values.
    - A SimpleITK image is a mutable object: images live in a store and
      the functions receive references.
    - The numerical kernels of SimpleITK (interpolation, Otsu threshold,
      label statistics) are parameters of the development; only the
      geometry contract of the library calls is written out.
    - [print] and [tqdm] produce terminal output only and are left out. *)

From Stdlib Require Import ZArith QArith Qround Qminmax Ascii String Sorted Lia Lqa.
From stdpp Require Import base list.

Local Open Scope Z_scope.

(** ** Python exceptions and results *)

Inductive exn : Type :=
| ZeroDivisionError
| IndexError
| ValueError
| TypeError
| RuntimeError
| UnboundLocalError
| DanglingReference.   (* a reference outside the store: never raised by Python *)

Inductive result (A : Type) : Type :=
| Ok (a : A)
| Raise (e : exn).
Arguments Ok {A} a.
Arguments Raise {A} e.

Definition is_ok {A} (r : result A) : bool :=
  match r with Ok _ => true | Raise _ => false end.

(** ** Numbers *)

Definition Qltb (x y : Q) : bool := negb (Qle_bool y x).

(** [a / b] on Python numbers. *)
Definition py_truediv (a b : Q) : result Q :=
  if Qeq_bool b 0 then Raise ZeroDivisionError else Ok (a / b)%Q.

(** [max(a, b)] and [min(a, b)]: the second argument wins only when it is
    strictly better. *)
Definition py_max (a b : Q) : Q := if Qltb a b then b else a.
Definition py_min (a b : Q) : Q := if Qltb b a then b else a.

(** [int(x)] on a float: truncation toward zero. *)
Definition py_int (x : Q) : Z :=
  if Qle_bool 0 x then Qfloor x else Qceiling x.

(** [np.round(x)]: nearest integer, ties to the even one. *)
Definition np_round (x : Q) : Z :=
  let f := Qfloor x in
  let d := (x - inject_Z f)%Q in
  if Qltb d (1 # 2) then f
  else if Qltb (1 # 2) d then f + 1
  else if Z.even f then f else f + 1.

(** Python's [slice(start, stop).indices(len)] for the default step. *)
Definition slice_index (len i : Z) : Z :=
  if i <? 0 then Z.max (i + len) 0 else Z.min i len.

Definition slice_indices (len start stop : Z) : Z * Z :=
  (slice_index len start, slice_index len stop).

(** Comparisons of an [int]-or-[None] value with an [int]: equality with
    [None] is false, ordering with [None] raises. *)
Definition py_eq_int (x : option Z) (n : Z) : bool :=
  match x with Some v => v =? n | None => false end.
Definition py_lt_int (x : option Z) (n : Z) : result bool :=
  match x with Some v => Ok (v <? n) | None => Raise TypeError end.
Definition py_gt_int (x : option Z) (n : Z) : result bool :=
  match x with Some v => Ok (v >? n) | None => Raise TypeError end.

(** Strings: ['.' in s] and [os.path.join] on a POSIX host. *)
Fixpoint contains_char (c : ascii) (s : string) : bool :=
  match s with
  | EmptyString => false
  | String c' s' => if Ascii.eqb c c' then true else contains_char c s'
  end.

Fixpoint ends_with_char (c : ascii) (s : string) : bool :=
  match s with
  | EmptyString => false
  | String c' EmptyString => Ascii.eqb c c'
  | String _ s' => ends_with_char c s'
  end.

Definition starts_with_char (c : ascii) (s : string) : bool :=
  match s with String c' _ => Ascii.eqb c c' | EmptyString => false end.

Definition path_join (a b : string) : string :=
  if starts_with_char "/" b then b
  else if String.eqb a EmptyString || ends_with_char "/" a then String.append a b
  else String.append a (String.append "/" b).

Definition triple (A : Type) : Type := (A * A * A)%type.

Definition cube {A} (n : A) : triple A := (n, n, n).

(** The three axes of a volume and the component of a triple on one. *)
Inductive axis : Type := axis_x | axis_y | axis_z.

Definition proj3 {A} (k : axis) (t : triple A) : A :=
  match k with
  | axis_x => t.1.1
  | axis_y => t.1.2
  | axis_z => t.2
  end.

(** ** Volumes *)

Inductive Interpolator : Type := sitkNearestNeighbor | sitkLinear | sitkBSpline.

(** [GetBoundingBox]: the start index and the size of a label's box. *)
Record BoundingBox : Type := mkBox {
  bb_start : triple Z;
  bb_span : triple Z
}.

Definition identity_direction : list Q := [1; 0; 0; 0; 1; 0; 0; 0; 1]%Q.

(** Row-major 3x3 matrix times vector, as ITK maps an index offset to a
    physical offset. *)
Definition direction_apply (d : list Q) (v : triple Q) : triple Q :=
  let e (n : nat) := nth n d 0%Q in
  let '(x, y, z) := v in
  (e 0%nat * x + e 1%nat * y + e 2%nat * z,
   e 3%nat * x + e 4%nat * y + e 5%nat * z,
   e 6%nat * x + e 7%nat * y + e 8%nat * z)%Q.

Section Pipeline.

(** The sample array of a volume, left abstract. *)
Variable Voxels : Type.

Record Image : Type := mkImage {
  img_size : triple Z;
  img_spacing : triple Q;
  img_origin : triple Q;
  img_direction : list Q;
  img_voxels : Voxels
}.

Definition GetSize (im : Image) : triple Z := img_size im.
Definition GetSpacing (im : Image) : triple Q := img_spacing im.
Definition GetOrigin (im : Image) : triple Q := img_origin im.
Definition GetDirection (im : Image) : list Q := img_direction im.
Definition GetWidth (im : Image) : Z := (img_size im).1.1.
Definition GetHeight (im : Image) : Z := (img_size im).1.2.
Definition GetDepth (im : Image) : Z := (img_size im).2.

Definition with_origin (o : triple Q) (im : Image) : Image :=
  mkImage (img_size im) (img_spacing im) o (img_direction im) (img_voxels im).

(** The library kernels.
    - [resample_voxels im size spacing origin direction default interp]:
      the samples [ResampleImageFilter] computes from [im] on the given
      output grid with the identity transform;
    - [extract_voxels v start stop]: the samples of the index box
      [start:stop] of [v];
    - [label_bounding_box im]: what
      [LabelShapeStatisticsImageFilter.GetBoundingBox(1)] gives after
      [Execute(OtsuThreshold(im, 0, 1))]; it raises when label 1 is
      absent. *)
Variable resample_voxels :
  Image -> triple Z -> triple Q -> triple Q -> list Q -> Q -> Interpolator -> Voxels.
Variable extract_voxels : Voxels -> triple Z -> triple Z -> Voxels.
Variable label_bounding_box : Image -> result BoundingBox.

(** ** The store and its monad *)

(** A reference is a position in the store. *)
Local Abbreviation ref := nat.
Local Abbreviation heap := (list Image).

(** A computation returns a value or raises, and leaves a store either way. *)
Definition M (A : Type) : Type := heap -> result A * heap.

Definition ret {A} (a : A) : M A := fun h => (Ok a, h).
Definition raise {A} (e : exn) : M A := fun h => (Raise e, h).
Definition bind {A B} (m : M A) (k : A -> M B) : M B :=
  fun h => match m h with
           | (Ok a, h') => k a h'
           | (Raise e, h') => (Raise e, h')
           end.
Definition lift {A} (r : result A) : M A := fun h => (r, h).

Notation "x <- m ;; k" := (bind m (fun x => k))
  (at level 100, m at next level, right associativity).

Definition get_img (r : ref) : M Image :=
  fun h => match h !! r with
           | Some im => (Ok im, h)
           | None => (Raise DanglingReference, h)
           end.

Definition update_img (r : ref) (f : Image -> Image) : M unit :=
  fun h => match h !! r with
           | Some im => (Ok tt, <[r := f im]> h)
           | None => (Raise DanglingReference, h)
           end.

Definition alloc (im : Image) : M ref :=
  fun h => (Ok (length h), h ++ [im]).

(** The references of a list all point into the store. *)
Definition valid_refs (h : heap) (imgs : list ref) : Prop :=
  Forall (fun r => (r < length h)%nat) imgs.

(** [itk_image.SetOrigin(o)] *)
Definition SetOrigin (r : ref) (o : triple Q) : M unit :=
  update_img r (with_origin o).

(** ** Volume resampler *)

(** The settings of a [sitk.ResampleImageFilter], with the library's
    defaults. *)
Record ResampleImageFilter : Type := mkFilter {
  flt_spacing : triple Q;
  flt_size : triple Z;
  flt_direction : list Q;
  flt_origin : triple Q;
  flt_default : Q;
  flt_interpolator : Interpolator
}.

Definition new_filter : ResampleImageFilter :=
  mkFilter (1, 1, 1)%Q (0, 0, 0) identity_direction (0, 0, 0)%Q 0%Q sitkLinear.

Definition SetOutputSpacing (s : triple Q) (f : ResampleImageFilter) :=
  mkFilter s (flt_size f) (flt_direction f) (flt_origin f) (flt_default f)
           (flt_interpolator f).
Definition SetSize (n : triple Z) (f : ResampleImageFilter) :=
  mkFilter (flt_spacing f) n (flt_direction f) (flt_origin f) (flt_default f)
           (flt_interpolator f).
Definition SetOutputDirection (d : list Q) (f : ResampleImageFilter) :=
  mkFilter (flt_spacing f) (flt_size f) d (flt_origin f) (flt_default f)
           (flt_interpolator f).
Definition SetOutputOrigin (o : triple Q) (f : ResampleImageFilter) :=
  mkFilter (flt_spacing f) (flt_size f) (flt_direction f) o (flt_default f)
           (flt_interpolator f).
Definition SetDefaultPixelValue (v : Q) (f : ResampleImageFilter) :=
  mkFilter (flt_spacing f) (flt_size f) (flt_direction f) (flt_origin f) v
           (flt_interpolator f).
Definition SetInterpolator (i : Interpolator) (f : ResampleImageFilter) :=
  mkFilter (flt_spacing f) (flt_size f) (flt_direction f) (flt_origin f)
           (flt_default f) i.

(** [resample.Execute(image)]: a new image on the grid the filter holds. *)
Definition Execute (f : ResampleImageFilter) (r : ref) : M ref :=
  im <- get_img r ;;
  alloc (mkImage (flt_size f) (flt_spacing f) (flt_origin f) (flt_direction f)
           (resample_voxels im (flt_size f) (flt_spacing f) (flt_origin f)
              (flt_direction f) (flt_default f) (flt_interpolator f))).

(** One component of [out_size]:
    [int(np.round(original_size[k] * (original_spacing[k] / out_spacing[k])))]. *)
Definition resampled_count (n : Z) (sp out_sp : Q) : result Z :=
  match py_truediv sp out_sp with
  | Ok q => Ok (np_round (inject_Z n * q))
  | Raise e => Raise e
  end.

Definition resample_image (itk_image : ref) (out_spacing : triple Q)
    (is_label : bool) : M ref :=
  _ <- SetOrigin itk_image (0, 0, 0)%Q ;;
  im <- get_img itk_image ;;
  let original_spacing := GetSpacing im in
  let original_size := GetSize im in
  n0 <- lift (resampled_count original_size.1.1 original_spacing.1.1 out_spacing.1.1) ;;
  n1 <- lift (resampled_count original_size.1.2 original_spacing.1.2 out_spacing.1.2) ;;
  n2 <- lift (resampled_count original_size.2 original_spacing.2 out_spacing.2) ;;
  let out_size := (n0, n1, n2) in
  let resample := new_filter in
  let resample := SetOutputSpacing out_spacing resample in
  let resample := SetSize out_size resample in
  let resample := SetOutputDirection (GetDirection im) resample in
  let resample := SetOutputOrigin (GetOrigin im) resample in
  let resample := SetDefaultPixelValue 1%Q resample in
  let resample :=
    if is_label then SetInterpolator sitkNearestNeighbor resample
    else SetInterpolator sitkBSpline resample in
  Execute resample itk_image.

(** One component of the implied spacing:
    [original_size[k] * (original_spacing[k] / out_size[k])]. *)
Definition implied_spacing (n : Z) (sp : Q) (out_n : Z) : result Q :=
  match py_truediv sp (inject_Z out_n) with
  | Ok q => Ok (inject_Z n * q)%Q
  | Raise e => Raise e
  end.

(** [sitk.Resample(image, reference, Transform(), interpolator)]: the
    output grid is the reference image's (size, spacing, origin,
    direction), the default sample is 0. *)
Definition Resample (r : ref) (ref_size : triple Z) (ref_spacing ref_origin : triple Q)
    (ref_direction : list Q) (interp : Interpolator) : M ref :=
  im <- get_img r ;;
  alloc (mkImage ref_size ref_spacing ref_origin ref_direction
           (resample_voxels im ref_size ref_spacing ref_origin ref_direction
              0%Q interp)).

Definition resample_image_standardize (itk_image : ref) (out_size : triple Z)
    (is_label : bool) : M ref :=
  _ <- SetOrigin itk_image (0, 0, 0)%Q ;;
  im <- get_img itk_image ;;
  let original_spacing := GetSpacing im in
  let original_size := GetSize im in
  s0 <- lift (implied_spacing original_size.1.1 original_spacing.1.1 out_size.1.1) ;;
  s1 <- lift (implied_spacing original_size.1.2 original_spacing.1.2 out_size.1.2) ;;
  s2 <- lift (implied_spacing original_size.2 original_spacing.2 out_size.2) ;;
  let out_spacing := (s0, s1, s2) in
  (* reference_image = sitk.Image(out_size, 1): origin 0, then
     SetDirection and SetSpacing *)
  let interpolator := if is_label then sitkNearestNeighbor else sitkBSpline in
  Resample itk_image out_size out_spacing (0, 0, 0)%Q (GetDirection im) interpolator.

(** ** Shape extrema *)

Definition extrema_step (acc : triple Z * triple Z) (img : Image)
    : triple Z * triple Z :=
  let '((w_min, h_min, l_min), (w_max, h_max, l_max)) := acc in
  let '(w, h, l) := GetSize img in
  let w_max := if w >? w_max then w else w_max in
  let h_max := if h >? h_max then h else h_max in
  let l_max := if l >? l_max then l else l_max in
  let w_min := if w <? w_min then w else w_min in
  let h_min := if h <? h_min then h else h_min in
  let l_min := if l <? l_min then l else l_min in
  ((w_min, h_min, l_min), (w_max, h_max, l_max)).

Definition find_shape_extrema (imgs : list Image) : triple Z * triple Z :=
  fold_left extrema_step imgs ((1000, 1000, 1000), (0, 0, 0)).

(** The voxel counts of a list of volumes along one axis. *)
Definition extents (k : axis) (imgs : list Image) : list Z :=
  map (fun img => proj3 k (GetSize img)) imgs.

(** ** Cropping to the common extent *)

(** The per-axis block of lines 360-391: the ratio chosen from the start
    of the foreground box and its distance from the far edge. *)
Definition dynamic_ratio (start_max end_min_from_end : Z) : result Q :=
  if start_max >? end_min_from_end then
    let a := end_min_from_end in
    let b := start_max in
    match py_truediv (inject_Z a) (inject_Z b) with
    | Ok q => Ok (py_max (q / 2) (1 - q / 2))%Q
    | Raise e => Raise e
    end
  else
    let b := end_min_from_end in
    let a := start_max in
    match py_truediv (inject_Z a) (inject_Z b) with
    | Ok q => Ok (py_min (q / 2) (1 - q / 2))%Q
    | Raise e => Raise e
    end.

(** Lines 394-402 for one axis: [start] and [end] of the kept range. *)
Definition crop_bounds (n_img diff_im : Z) (ratio : Q) : Z * Z :=
  (py_int (inject_Z diff_im * ratio),
   py_int (inject_Z n_img - inject_Z diff_im * (1 - ratio))).

(** The same range as the specification words it:
    [start = floor(excess * ratio)],
    [end = currentExtent - floor(excess * (1 - ratio))]. *)
Definition spec_crop_bounds (currentExtent targetExtent : Z) (ratio : Q) : Z * Z :=
  let excess := currentExtent - targetExtent in
  (Qfloor (inject_Z excess * ratio),
   currentExtent - Qfloor (inject_Z excess * (1 - ratio))).

(** The range in closed form: both ends are floors, the second of the
    whole expression [currentExtent - excess * (1 - ratio)]. *)
Definition kept_start (currentExtent targetExtent : Z) (ratio : Q) : Z :=
  Qfloor (inject_Z (currentExtent - targetExtent) * ratio).
Definition kept_stop (currentExtent targetExtent : Z) (ratio : Q) : Z :=
  Qfloor (inject_Z currentExtent
          - inject_Z (currentExtent - targetExtent) * (1 - ratio)).

(** [img[i0:i1, j0:j1, k0:k1]]: the extracted box keeps spacing and
    direction; its origin is the physical position of its first voxel.
    An empty range gives extent 0 here. *)
Definition getitem (r : ref) (bi bj bk : Z * Z) : M ref :=
  im <- get_img r ;;
  let '(w, h, l) := GetSize im in
  let '(i0, i1) := slice_indices w bi.1 bi.2 in
  let '(j0, j1) := slice_indices h bj.1 bj.2 in
  let '(k0, k1) := slice_indices l bk.1 bk.2 in
  let '(sx, sy, sz) := GetSpacing im in
  let '(ox, oy, oz) := GetOrigin im in
  let '(dx, dy, dz) :=
    direction_apply (GetDirection im)
      (inject_Z i0 * sx, inject_Z j0 * sy, inject_Z k0 * sz)%Q in
  alloc (mkImage (Z.max 0 (i1 - i0), Z.max 0 (j1 - j0), Z.max 0 (k1 - k0))
           (sx, sy, sz) (ox + dx, oy + dy, oz + dz)%Q (GetDirection im)
           (extract_voxels (img_voxels im) (i0, j0, k0) (i1, j1, k1))).

(** The ratios of lines 339-391, from the foreground box of one volume. *)
Definition solve_ratios (im : Image) : result (triple Q) :=
  match label_bounding_box im with
  | Raise e => Raise e
  | Ok bounding_box =>
    let '(i_start_max, j_start_max, k_start_max) := bb_start bounding_box in
    let '(i_span_min, j_span_min, k_span_min) := bb_span bounding_box in
    let i_end_min := i_start_max + i_span_min in
    let j_end_min := j_start_max + j_span_min in
    let k_end_min := k_start_max + k_span_min in
    let i_end_min_from_end := GetWidth im - i_end_min in
    let j_end_min_from_end := GetHeight im - j_end_min in
    let k_end_min_from_end := GetDepth im - k_end_min in
    match dynamic_ratio i_start_max i_end_min_from_end with
    | Raise e => Raise e
    | Ok width_ratio =>
      match dynamic_ratio j_start_max j_end_min_from_end with
      | Raise e => Raise e
      | Ok height_ratio =>
        match dynamic_ratio k_start_max k_end_min_from_end with
        | Raise e => Raise e
        | Ok length_ratio => Ok (width_ratio, height_ratio, length_ratio)
        end
      end
    end
  end.

(** On one axis, the distance from the end of the foreground box to the
    far edge of the volume. *)
Definition end_from_end (k : axis) (im : Image) (b : BoundingBox) : Z :=
  proj3 k (GetSize im) - (proj3 k (bb_start b) + proj3 k (bb_span b)).

(** The ratios the loop starts an iteration with (lines 323-326). *)
Definition initial_ratios (fixed_bounding_ratios : triple Q)
    (dynamic_bounding_ratios : list (triple Q)) (i : nat) : result (triple Q) :=
  match dynamic_bounding_ratios with
  | [] => Ok fixed_bounding_ratios
  | _ => match dynamic_bounding_ratios !! i with
         | Some r => Ok r
         | None => Raise IndexError
         end
  end.

(** The three kept ranges of one volume. *)
Definition crop_ranges (size mins : triple Z) (ratios : triple Q)
    : (Z * Z) * (Z * Z) * (Z * Z) :=
  let '(w_img, h_img, l_img) := size in
  let '(w_min, h_min, l_min) := mins in
  let '(width_ratio, height_ratio, length_ratio) := ratios in
  let w_diff_im := w_img - w_min in
  let h_diff_im := h_img - h_min in
  let l_diff_im := l_img - l_min in
  (crop_bounds w_img w_diff_im width_ratio,
   crop_bounds h_img h_diff_im height_ratio,
   crop_bounds l_img l_diff_im length_ratio).

(** One iteration of the loop of [crop_images_to_common_dimensions]. *)
Definition crop_one (mins : triple Z) (fixed_bounding_ratios : triple Q)
    (dynamic_bounding_ratios : list (triple Q))
    (find_dynamic_bounding_ratios : bool) (i : nat) (img : ref) : M ref :=
  ratios0 <- lift (initial_ratios fixed_bounding_ratios dynamic_bounding_ratios i) ;;
  im <- get_img img ;;
  ratios <- (if find_dynamic_bounding_ratios then lift (solve_ratios im)
             else ret ratios0) ;;
  let '(bi, bj, bk) := crop_ranges (GetSize im) mins ratios in
  getitem img bi bj bk.

Fixpoint crop_loop (mins : triple Z) (fixed_bounding_ratios : triple Q)
    (dynamic_bounding_ratios : list (triple Q))
    (find_dynamic_bounding_ratios : bool) (i : nat) (imgs new_imgs : list ref)
    : M (list ref) :=
  match imgs with
  | [] => ret new_imgs
  | img :: rest =>
    r <- crop_one mins fixed_bounding_ratios dynamic_bounding_ratios
           find_dynamic_bounding_ratios i img ;;
    crop_loop mins fixed_bounding_ratios dynamic_bounding_ratios
      find_dynamic_bounding_ratios (S i) rest (new_imgs ++ [r])
  end.

Fixpoint get_imgs (rs : list ref) : M (list Image) :=
  match rs with
  | [] => ret []
  | r :: rest => im <- get_img r ;; ims <- get_imgs rest ;; ret (im :: ims)
  end.

(** What the function returns: the cropped list, paired with the ratio
    list when [find_dynamic_bounding_ratios] is set. *)
Definition crop_return (find_dynamic_bounding_ratios : bool) : Type :=
  if find_dynamic_bounding_ratios then (list ref * list (triple Q))%type
  else list ref.

Definition default_fixed_bounding_ratios : triple Q := (1 # 2, 1 # 2, 1 # 2)%Q.

Definition crop_images_to_common_dimensions (imgs : list ref)
    (fixed_bounding_ratios : triple Q)
    (dynamic_bounding_ratios : list (triple Q))
    (find_dynamic_bounding_ratios : bool)
    : M (crop_return find_dynamic_bounding_ratios) :=
  ims <- get_imgs imgs ;;
  let '(mins, _) := find_shape_extrema ims in
  new_imgs <- crop_loop mins fixed_bounding_ratios dynamic_bounding_ratios
                find_dynamic_bounding_ratios 0%nat imgs [] ;;
  match find_dynamic_bounding_ratios
        return M (crop_return find_dynamic_bounding_ratios) with
  | true => ret (new_imgs, dynamic_bounding_ratios)
  | false => ret new_imgs
  end.

(** ** Running a stage over a list *)

(** [mp.cpu_count()] *)
Variable cpu_count : Z.

(** [for arg in args: results.append(helper(arg))] *)
Fixpoint for_each {A B} (helper : A -> M B) (args : list A) (results : list B)
    : M (list B) :=
  match args with
  | [] => ret results
  | arg :: rest => b <- helper arg ;; for_each helper rest (results ++ [b])
  end.

(** [mp.Pool(processes=n)]: the number of worker processes. *)
Definition Pool (processes : option Z) : result Z :=
  match processes with
  | None => Ok cpu_count
  | Some n => if n <? 1 then Raise ValueError else Ok n
  end.

(** A call made in a worker process: it runs on a copy of the caller's
    store, and only its returned value comes back. *)
Definition in_worker {A B} (helper : A -> M B) (arg : A) : M B :=
  fun h => ((helper arg h).1, h).

(** The same for a helper that returns an image: the image is copied
    into the caller's store. *)
Definition in_worker_image {A} (helper : A -> M ref) (arg : A) : M ref :=
  fun h => match helper arg h with
           | (Ok r, hw) => match hw !! r with
                           | Some im => alloc im h
                           | None => (Raise DanglingReference, h)
                           end
           | (Raise e, _) => (Raise e, h)
           end.

Definition resample_image_helper (arg : ref * triple Q * bool) : M ref :=
  let '(img, out_spacing, is_label) := arg in
  resample_image img out_spacing is_label.

Definition resample_image_standardize_helper (arg : ref * triple Z * bool) : M ref :=
  let '(img, out_size, is_label) := arg in
  resample_image_standardize img out_size is_label.

Definition resample_images (imgs : list ref) (out_spacing : triple Q)
    (is_label : bool) (n_jobs : option Z) : M (list ref) :=
  let args := map (fun img => (img, out_spacing, is_label)) imgs in
  if py_eq_int n_jobs 1 then for_each resample_image_helper args []
  else
    _ <- lift (Pool n_jobs) ;;
    for_each (in_worker_image resample_image_helper) args [].

Definition resample_images_standardize (imgs : list ref) (out_size : triple Z)
    (is_label : bool) (n_jobs : option Z) : M (list ref) :=
  let args := map (fun img => (img, out_size, is_label)) imgs in
  if py_eq_int n_jobs 1 then for_each resample_image_standardize_helper args []
  else
    _ <- lift (Pool n_jobs) ;;
    for_each (in_worker_image resample_image_standardize_helper) args [].

(** ** Resampling a directory *)

(** The host's files: [os.listdir], [sitk.ReadImage(path, imageIO=...)]
    and the series reader on a DICOM folder. *)
Variable listdir : string -> result (list string).
Variable ReadImage : string -> string -> result Image.
Variable ReadSeries : string -> result Image.

Record helper_args : Type := mkArgs {
  arg_file_name : string;
  arg_input_file_path : string;
  arg_output_file_path : string;
  arg_out_size : triple Z;
  arg_is_label : bool;
  arg_image : option string;
  arg_output_type : string
}.

(** The helper returns what [sitk.WriteImage] wrote: the path and the
    image. *)
Definition resample_directory_helper (args : helper_args) : M (string * Image) :=
  let output_file_path :=
    if negb (contains_char "." (arg_file_name args))
    then String.append (arg_output_file_path args)
           (String.append "." (arg_output_type args))
    else arg_output_file_path args in
  original <- lift
    (match arg_image args with
     | Some io =>
       if String.eqb io "GDCMImageIO" then ReadSeries (arg_input_file_path args)
       else if String.eqb io "NiftiImageIO"
            then ReadImage (arg_input_file_path args) io
            else Raise UnboundLocalError
     | None => Raise UnboundLocalError
     end) ;;
  r <- alloc original ;;
  resampler <- resample_image_standardize r (arg_out_size args) (arg_is_label args) ;;
  im <- get_img resampler ;;
  ret (output_file_path, im).

Definition is_not_None {A} (x : option A) : bool :=
  match x with Some _ => true | None => false end.

(** The result records how the work was run ([None]: in the calling
    process; [Some n]: a pool of [n] workers) and the files written. *)
Definition resample_directory (input_directory output_directory : string)
    (out_size : triple Z) (is_label : bool) (image : option string)
    (output_type : string) (n_jobs : option Z)
    : M (option Z * list (string * Image)) :=
  illegal <- lift (if py_eq_int n_jobs 0 then Ok true else py_lt_int n_jobs (-1)) ;;
  if (illegal : bool) then raise ValueError
  else
    names <- lift (listdir input_directory) ;;
    let args :=
      map (fun file_name =>
             mkArgs file_name (path_join input_directory file_name)
               (path_join output_directory file_name) out_size is_label image
               output_type) names in
    if is_not_None n_jobs || py_eq_int n_jobs 1 then
      n_jobs' <- lift
        (if py_eq_int n_jobs (-1) then Ok (Some cpu_count)
         else match py_gt_int n_jobs cpu_count with
              | Ok true => Ok (Some cpu_count)
              | Ok false => Ok n_jobs
              | Raise e => Raise e
              end) ;;
      processes <- lift (Pool n_jobs') ;;
      written <- for_each (in_worker resample_directory_helper) args [] ;;
      ret (Some processes, written)
    else
      written <- for_each resample_directory_helper args [] ;;
      ret (None, written).

(** ** The pipeline *)

Definition pipeline_return (masks_only : bool) : Type :=
  if masks_only then list ref else (list ref * list ref)%type.

Definition resampling_pipeline (imgs masks : list ref) (out_spacing : triple Q)
    (out_size : triple Z) (masks_only : bool) (n_jobs : option Z)
    : M (pipeline_return masks_only) :=
  masks <- resample_images masks out_spacing true n_jobs ;;
  cropped <- crop_images_to_common_dimensions masks default_fixed_bounding_ratios
               [] true ;;
  let '(masks, bounding_ratios) := (cropped : list ref * list (triple Q)) in
  masks <- resample_images_standardize masks out_size true n_jobs ;;
  match masks_only return M (pipeline_return masks_only) with
  | true => ret masks
  | false =>
    imgs <- resample_images imgs out_spacing false n_jobs ;;
    imgs <- crop_images_to_common_dimensions imgs default_fixed_bounding_ratios
              bounding_ratios false ;;
    imgs <- resample_images_standardize (imgs : list ref) out_size false n_jobs ;;
    ret (imgs, masks)
  end.

End Pipeline.

Abbreviation ref := nat.
Abbreviation heap Voxels := (list (Image Voxels)).

Arguments mkImage {Voxels}.
Arguments img_size {Voxels}.
Arguments img_spacing {Voxels}.
Arguments img_origin {Voxels}.
Arguments img_direction {Voxels}.
Arguments img_voxels {Voxels}.
Arguments ret {Voxels A}.
Arguments get_img {Voxels}.
Arguments GetSize {Voxels}.
Arguments find_shape_extrema {Voxels}.
Arguments extrema_step {Voxels}.
Arguments extents {Voxels}.
Arguments with_origin {Voxels}.
Arguments end_from_end {Voxels}.
Arguments valid_refs {Voxels}.

(** ** A concrete world for the examples

    A phantom volume is described by the foreground box the estimator
    finds in it and by the operations applied since. *)

Inductive Phantom : Type :=
| Source (foreground : BoundingBox)
| Resampled (v : Phantom) (size : triple Z) (interp : Interpolator)
| Extracted (v : Phantom) (start stop : triple Z).

Definition phantom_resample (im : Image Phantom) (size : triple Z)
    (spacing origin : triple Q) (direction : list Q) (default : Q)
    (interp : Interpolator) : Phantom :=
  Resampled (img_voxels im) size interp.

Definition phantom_extract (v : Phantom) (start stop : triple Z) : Phantom :=
  Extracted v start stop.

(** Resampling onto the same grid keeps the foreground where it was; the
    estimator is not asked about any other phantom in the examples. *)
Fixpoint phantom_box (v : Phantom) : result BoundingBox :=
  match v with
  | Source b => Ok b
  | Resampled v' _ _ => phantom_box v'
  | Extracted _ _ _ => Raise RuntimeError
  end.

Definition phantom_bounding_box (im : Image Phantom) : result BoundingBox :=
  phantom_box (img_voxels im).

Definition unit_spacing : triple Q := (1, 1, 1)%Q.

(** A phantom of [n]^3 voxels at unit spacing whose foreground starts at
    [s] and spans [p] voxels on every axis. *)
Definition phantom (n s p : Z) : Image Phantom :=
  mkImage (cube n) unit_spacing (0, 0, 0)%Q identity_direction
          (Source (mkBox (cube s) (cube p))).

Definition run_crop (h : heap Phantom) (imgs : list ref)
    (dynamic : list (triple Q)) (find : bool) :=
  crop_images_to_common_dimensions Phantom phantom_extract phantom_bounding_box
    imgs default_fixed_bounding_ratios dynamic find h.

Definition run_pipeline (h : heap Phantom) (imgs masks : list ref)
    (out_size : triple Z) (masks_only : bool) :=
  resampling_pipeline Phantom phantom_resample phantom_extract
    phantom_bounding_box 4 imgs masks unit_spacing out_size masks_only (Some 1) h.

(** The mask pass up to the crop: respacing, then the adaptive crop. *)
Definition run_mask_stage (h : heap Phantom) (masks : list ref) :=
  bind Phantom
    (resample_images Phantom phantom_resample 4 masks unit_spacing true (Some 1))
    (fun masks =>
       crop_images_to_common_dimensions Phantom phantom_extract phantom_bounding_box
         masks default_fixed_bounding_ratios [] true) h.

(** The index box of the last extraction recorded in a phantom. *)
Fixpoint crop_window (v : Phantom) : option (triple Z * triple Z) :=
  match v with
  | Source _ => None
  | Resampled v' _ _ => crop_window v'
  | Extracted _ start stop => Some (start, stop)
  end.

Definition window_at (h : heap Phantom) (r : ref) : option (triple Z * triple Z) :=
  match h !! r with
  | Some im => crop_window (img_voxels im)
  | None => None
  end.

Definition size_at (h : heap Phantom) (r : ref) : option (triple Z) :=
  match h !! r with
  | Some im => Some (GetSize im)
  | None => None
  end.

(** Two image/mask pairs: images at 0 and 1, their masks at 2 and 3. *)
Definition paired_dataset : heap Phantom :=
  [phantom 10 4 4; phantom 6 1 4; phantom 10 4 4; phantom 6 1 4].

Definition three_masks : heap Phantom :=
  [phantom 50 10 20; phantom 60 10 30; phantom 40 10 20].

(** A mask whose foreground reaches both faces of the volume. *)
Definition full_span_mask : Image Phantom := phantom 40 0 40.

(** A volume whose origin is not at zero. *)
Definition offset_phantom : Image Phantom :=
  mkImage (cube 10) unit_spacing (1, 2, 3)%Q identity_direction
          (Source (mkBox (cube 4) (cube 4))).

(** ** The store across a call *)

(** [h'] keeps every volume of [h], as it was or with its origin reset to
    zero, and may hold more. *)
Definition extends {Voxels} (h h' : heap Voxels) : Prop :=
  (length h <= length h')%nat
  /\ forall r im, h !! r = Some im ->
       h' !! r = Some im \/ h' !! r = Some (with_origin (0, 0, 0)%Q im).

(** The volume at [r] is [im], as it is or with its origin reset to zero. *)
Definition at_ref {Voxels} (h : heap Voxels) (r : ref) (im : Image Voxels) : Prop :=
  h !! r = Some im \/ h !! r = Some (with_origin (0, 0, 0)%Q im).

(** A computation that only resets origins to zero and allocates. *)
Definition preserving {Voxels A} (m : M Voxels A) : Prop :=
  forall h, extends h (m h).2.

(** A computation that only allocates: the store it finds is a prefix of
    the store it leaves. *)
Definition appending {Voxels A} (m : M Voxels A) : Prop :=
  forall h, exists tail, (m h).2 = h ++ tail.

(** The volume [resample_image] builds from [im]: the grid of lines
    22-29 and the samples of the filter. *)
Definition resample_output {Voxels}
    (resample_voxels : Image Voxels -> triple Z -> triple Q -> triple Q -> list Q -> Q
                       -> Interpolator -> Voxels)
    (im : Image Voxels) (out_spacing : triple Q) (is_label : bool) : Image Voxels :=
  let out_size :=
    (np_round (inject_Z (img_size im).1.1 * ((img_spacing im).1.1 / out_spacing.1.1)),
     np_round (inject_Z (img_size im).1.2 * ((img_spacing im).1.2 / out_spacing.1.2)),
     np_round (inject_Z (img_size im).2 * ((img_spacing im).2 / out_spacing.2))) in
  mkImage out_size out_spacing (0, 0, 0)%Q (img_direction im)
    (resample_voxels (with_origin (0, 0, 0)%Q im) out_size out_spacing (0, 0, 0)%Q
       (img_direction im) 1%Q
       (if is_label then sitkNearestNeighbor else sitkBSpline)).

(** The volume [resample_image_standardize] builds from [im]. *)
Definition standardize_output {Voxels}
    (resample_voxels : Image Voxels -> triple Z -> triple Q -> triple Q -> list Q -> Q
                       -> Interpolator -> Voxels)
    (im : Image Voxels) (out_size : triple Z) (is_label : bool) : Image Voxels :=
  let out_spacing :=
    (inject_Z (img_size im).1.1 * ((img_spacing im).1.1 / inject_Z out_size.1.1),
     inject_Z (img_size im).1.2 * ((img_spacing im).1.2 / inject_Z out_size.1.2),
     inject_Z (img_size im).2 * ((img_spacing im).2 / inject_Z out_size.2))%Q in
  mkImage out_size out_spacing (0, 0, 0)%Q (img_direction im)
    (resample_voxels (with_origin (0, 0, 0)%Q im) out_size out_spacing (0, 0, 0)%Q
       (img_direction im) 0%Q
       (if is_label then sitkNearestNeighbor else sitkBSpline)).

(** The volume the slice of line 407 builds from [im] for given ranges. *)
Definition slice_output {Voxels} (extract_voxels : Voxels -> triple Z -> triple Z -> Voxels)
    (im : Image Voxels) (bi bj bk : Z * Z) : Image Voxels :=
  let '(w, h, l) := img_size im in
  let '(i0, i1) := slice_indices w bi.1 bi.2 in
  let '(j0, j1) := slice_indices h bj.1 bj.2 in
  let '(k0, k1) := slice_indices l bk.1 bk.2 in
  let '(sx, sy, sz) := img_spacing im in
  let '(ox, oy, oz) := img_origin im in
  let '(dx, dy, dz) :=
    direction_apply (img_direction im)
      (inject_Z i0 * sx, inject_Z j0 * sy, inject_Z k0 * sz)%Q in
  mkImage (Z.max 0 (i1 - i0), Z.max 0 (j1 - j0), Z.max 0 (k1 - k0))
    (sx, sy, sz) (ox + dx, oy + dy, oz + dz)%Q (img_direction im)
    (extract_voxels (img_voxels im) (i0, j0, k0) (i1, j1, k1)).

(** The volume one loop iteration appends for [im], given the target
    [mins] and the ratios in force. *)
Definition crop_output {Voxels} (extract_voxels : Voxels -> triple Z -> triple Z -> Voxels)
    (mins : triple Z) (ratios : triple Q) (im : Image Voxels) : Image Voxels :=
  let '(bi, bj, bk) := crop_ranges (img_size im) mins ratios in
  slice_output extract_voxels im bi bj bk.

(** A foreground box the solver can work with: it lies inside the
    volume and does not fill any axis from face to face. *)
Definition proper_box {Voxels} (im : Image Voxels) (b : BoundingBox) : Prop :=
  forall k, 0 <= proj3 k (bb_start b)
            /\ 0 <= end_from_end k im b
            /\ ~ (proj3 k (bb_start b) = 0 /\ end_from_end k im b = 0).

Definition nonnegative_shape {Voxels} (im : Image Voxels) : Prop :=
  forall k, 0 <= proj3 k (img_size im).

(** At least one voxel along every axis. *)
Definition positive_shape {Voxels} (im : Image Voxels) : Prop :=
  forall k, 0 < proj3 k (img_size im).

Definition unit_ratios (ratios : triple Q) : Prop :=
  forall k, (0 <= proj3 k ratios <= 1)%Q.

(** ** Files and names *)

(** [s.split(c)] for a one-character separator. *)
Fixpoint split_on (c : ascii) (s : string) : list string :=
  match s with
  | EmptyString => [EmptyString]
  | String c' s' =>
    if Ascii.eqb c' c then EmptyString :: split_on c s'
    else match split_on c s' with
         | piece :: rest => String c' piece :: rest
         | [] => [String c' EmptyString]
         end
  end.

(** [sorted(names)]: Python orders strings by code point. *)
Fixpoint insert_sorted (x : string) (l : list string) : list string :=
  match l with
  | [] => [x]
  | y :: l' => if String.leb x y then x :: l else y :: insert_sorted x l'
  end.

Definition py_sorted (l : list string) : list string := foldr insert_sorted [] l.

(** [''.join(name.split('.')[0].split('-')[1:])] of lines 95-96. *)
Definition name_key (file_name : string) : string :=
  String.concat EmptyString
    (tail (split_on "-" (hd EmptyString (split_on "." file_name)))).

(** The ways [validate_bucket_download] ends.  Both [raise] statements
    build their message from the name [hi_res_path], which the module
    never defines: evaluating the message raises [NameError]. *)
Inductive validation : Type :=
| ReturnsTrue
| RaisesNameError
| ListdirRaises (e : exn).

Fixpoint check_pairs (image_mask_pairs : list (string * string)) : validation :=
  match image_mask_pairs with
  | [] => ReturnsTrue
  | image_mask :: rest =>
    let name_1 := name_key image_mask.2 in
    let name_2 := name_key image_mask.1 in
    if negb (String.eqb name_1 name_2) then RaisesNameError
    else check_pairs rest
  end.

Section Files.

Variable Voxels : Type.

(** [os.listdir] and [sitk.ReadImage(path)]. *)
Variable listdir : string -> result (list string).
Variable ReadFile : string -> result (Image Voxels).

Definition validate_bucket_download (hi_res_images_path hi_res_masks_path : string)
    : validation :=
  match listdir hi_res_masks_path with
  | Raise e => ListdirRaises e
  | Ok masks_list =>
    match listdir hi_res_images_path with
    | Raise e => ListdirRaises e
    | Ok images_list =>
      let num_masks := length masks_list in
      let num_images := length images_list in
      if negb (num_masks =? num_images)%nat then RaisesNameError
      else
        let masks_list := py_sorted masks_list in
        let images_list := py_sorted images_list in
        let image_mask_pairs := combine images_list masks_list in
        check_pairs image_mask_pairs
    end
  end.

(** [n = min(len(paths), n) if n != -1 else len(paths)], then the
    length of [paths[:n]]. *)
Definition get_images_count (len n : Z) : Z :=
  let n := if negb (n =? -1) then Z.min len n else len in
  slice_index len n.

Definition read_image (path : string) : M Voxels ref :=
  bind Voxels (lift Voxels (ReadFile path)) (fun im => alloc Voxels im).

Definition get_images (directory : string) (n : Z) : M Voxels (list ref) :=
  bind Voxels (lift Voxels (listdir directory)) (fun names =>
    let paths := map (fun name => path_join directory name) (py_sorted names) in
    let paths := take (Z.to_nat (get_images_count (Z.of_nat (length paths)) n)) paths in
    for_each Voxels read_image paths []).

End Files.

(** A small host for the examples: two directories and a reader that
    finds the same phantom in every file. *)
Definition demo_listdir (path : string) : result (list string) :=
  if String.eqb path "scans" then Ok ["img-002.nii"; "img-001"]%string
  else if String.eqb path "labels" then Ok ["seg-001.nii.gz"; "seg-002.nii"]%string
  else if String.eqb path "plain" then Ok ["b.nii"; "a.nii"]%string
  else Raise RuntimeError.

Definition demo_file (name : string) : Image Phantom := phantom 10 4 4.

Definition demo_ReadImage (path io : string) : result (Image Phantom) :=
  Ok (phantom 10 4 4).

Definition demo_ReadSeries (path : string) : result (Image Phantom) :=
  Ok (phantom 10 4 4).

Definition demo_ReadFile (path : string) : result (Image Phantom) :=
  Ok (phantom 10 4 4).

(** * Properties *)

(** ** Arithmetic on rationals *)

Lemma Qltb_lt (x y : Q) : Qltb x y = true <-> (x < y)%Q.
Proof.
  unfold Qltb. rewrite negb_true_iff. split.
  - intros H. apply Qnot_le_lt. intros Hle.
    apply Qle_bool_iff in Hle. congruence.
  - intros H. destruct (Qle_bool y x) eqn:E; [|reflexivity].
    apply Qle_bool_iff in E. lra.
Qed.

Lemma Qltb_ge (x y : Q) : Qltb x y = false <-> (y <= x)%Q.
Proof.
  unfold Qltb. rewrite negb_false_iff. apply Qle_bool_iff.
Qed.

Lemma Qfloor_unique (z : Z) (x : Q) :
  (inject_Z z <= x)%Q -> (x < inject_Z (z + 1))%Q -> Qfloor x = z.
Proof.
  intros Hlo Hhi.
  pose proof (Qfloor_le x) as Hf. pose proof (Qlt_floor x) as Hc.
  assert (H1 : (inject_Z z < inject_Z (Qfloor x + 1))%Q) by lra.
  assert (H2 : (inject_Z (Qfloor x) < inject_Z (z + 1))%Q) by lra.
  rewrite <- Zlt_Qlt in H1, H2. lia.
Qed.

Lemma Qfloor_shift (z : Z) (x : Q) : Qfloor (inject_Z z + x) = z + Qfloor x.
Proof.
  apply Qfloor_unique.
  - rewrite inject_Z_plus. pose proof (Qfloor_le x). lra.
  - rewrite <- Z.add_assoc, inject_Z_plus. pose proof (Qlt_floor x). lra.
Qed.

Lemma Qfloor_nonneg (x : Q) : (0 <= x)%Q -> 0 <= Qfloor x.
Proof.
  intros H. change 0 with (Qfloor 0). now apply Qfloor_resp_le.
Qed.

Lemma py_int_nonneg (x : Q) : (0 <= x)%Q -> py_int x = Qfloor x.
Proof.
  intros H. unfold py_int.
  apply Qle_bool_iff in H. now rewrite H.
Qed.

Lemma py_max_Qmax (a b : Q) : py_max a b = Qmax a b.
Proof.
  unfold py_max, Qmax, GenericMinMax.gmax.
  destruct (Qltb a b) eqn:E.
  - apply Qltb_lt in E. rewrite Qlt_alt in E. now rewrite E.
  - apply Qltb_ge in E. destruct (a ?= b)%Q eqn:C; try reflexivity.
    rewrite <- Qlt_alt in C. lra.
Qed.

Lemma py_min_Qmin (a b : Q) : py_min a b = Qmin a b.
Proof.
  unfold py_min, Qmin, GenericMinMax.gmin.
  destruct (Qltb b a) eqn:E.
  - apply Qltb_lt in E. rewrite Qgt_alt in E. now rewrite E.
  - apply Qltb_ge in E. destruct (a ?= b)%Q eqn:C; try reflexivity.
    rewrite <- Qgt_alt in C. lra.
Qed.

(** [np_round] respects equality of rationals and picks a nearest integer. *)
Lemma np_round_comp (x y : Q) : (x == y)%Q -> np_round x = np_round y.
Proof.
  intros E. unfold np_round.
  rewrite (Qfloor_comp _ _ E).
  set (f := Qfloor y).
  assert (Ed : (x - inject_Z f == y - inject_Z f)%Q) by (rewrite E; reflexivity).
  assert (E1 : Qltb (x - inject_Z f) (1 # 2) = Qltb (y - inject_Z f) (1 # 2)).
  { apply eq_true_iff_eq. rewrite !Qltb_lt, Ed. reflexivity. }
  assert (E2 : Qltb (1 # 2) (x - inject_Z f) = Qltb (1 # 2) (y - inject_Z f)).
  { apply eq_true_iff_eq. rewrite !Qltb_lt, Ed. reflexivity. }
  now rewrite E1, E2.
Qed.

Lemma np_round_nearest (x : Q) :
  (inject_Z (np_round x) - (1 # 2) <= x)%Q /\ (x <= inject_Z (np_round x) + (1 # 2))%Q.
Proof.
  unfold np_round.
  pose proof (Qfloor_le x) as Hf. pose proof (Qlt_floor x) as Hc.
  rewrite inject_Z_plus in Hc. change (inject_Z 1) with 1%Q in Hc.
  destruct (Qltb (x - inject_Z (Qfloor x)) (1 # 2)) eqn:E1.
  { apply Qltb_lt in E1. split; lra. }
  apply Qltb_ge in E1.
  destruct (Qltb (1 # 2) (x - inject_Z (Qfloor x))) eqn:E2.
  { rewrite inject_Z_plus. change (inject_Z 1) with 1%Q. split; lra. }
  apply Qltb_ge in E2.
  destruct (Z.even (Qfloor x));
    [| rewrite inject_Z_plus; change (inject_Z 1) with 1%Q]; split; lra.
Qed.

Lemma np_round_Z (z : Z) : np_round (inject_Z z) = z.
Proof.
  unfold np_round. rewrite Qfloor_Z.
  assert (E : Qltb (inject_Z z - inject_Z z) (1 # 2) = true).
  { apply Qltb_lt. lra. }
  now rewrite E.
Qed.

(** ** Shape extrema *)

Lemma fold_min_le_init (l : list Z) (a : Z) : fold_left Z.min l a <= a.
Proof.
  revert a. induction l as [|x l IH]; intros a; simpl; [lia|].
  specialize (IH (Z.min a x)). lia.
Qed.

Lemma fold_min_lower (l : list Z) (a : Z) : Forall (fun x => fold_left Z.min l a <= x) l.
Proof.
  revert a. induction l as [|x l IH]; intros a; simpl; constructor.
  - pose proof (fold_min_le_init l (Z.min a x)). lia.
  - apply IH.
Qed.

Lemma fold_min_attained (l : list Z) (a : Z) :
  fold_left Z.min l a = a \/ fold_left Z.min l a ∈ l.
Proof.
  revert a. induction l as [|x l IH]; intros a; simpl; [now left|].
  destruct (IH (Z.min a x)) as [E | E].
  - rewrite E. destruct (Z.min_spec a x) as [[_ ->] | [_ ->]].
    + now left.
    + right. constructor.
  - right. now constructor.
Qed.

Lemma fold_max_ge_init (l : list Z) (a : Z) : a <= fold_left Z.max l a.
Proof.
  revert a. induction l as [|x l IH]; intros a; simpl; [lia|].
  specialize (IH (Z.max a x)). lia.
Qed.

Lemma fold_max_upper (l : list Z) (a : Z) : Forall (fun x => x <= fold_left Z.max l a) l.
Proof.
  revert a. induction l as [|x l IH]; intros a; simpl; constructor.
  - pose proof (fold_max_ge_init l (Z.max a x)). lia.
  - apply IH.
Qed.

Lemma fold_max_attained (l : list Z) (a : Z) :
  fold_left Z.max l a = a \/ fold_left Z.max l a ∈ l.
Proof.
  revert a. induction l as [|x l IH]; intros a; simpl; [now left|].
  destruct (IH (Z.max a x)) as [E | E].
  - rewrite E. destruct (Z.max_spec a x) as [[_ ->] | [_ ->]].
    + right. constructor.
    + now left.
  - right. now constructor.
Qed.

Section Extrema.

Variable Voxels : Type.
Implicit Types (imgs : list (Image Voxels)) (k : axis).

(** On each axis the loop is a running minimum and a running maximum. *)
Lemma extrema_fold imgs (mins maxs : triple Z) k :
  proj3 k (fold_left extrema_step imgs (mins, maxs)).1
    = fold_left Z.min (extents k imgs) (proj3 k mins)
  /\ proj3 k (fold_left extrema_step imgs (mins, maxs)).2
    = fold_left Z.max (extents k imgs) (proj3 k maxs).
Proof.
  revert mins maxs. induction imgs as [|img imgs IH]; intros mins maxs.
  - now split.
  - destruct mins as [[w_min h_min] l_min], maxs as [[w_max h_max] l_max].
    cbn [fold_left extents map]. unfold extrema_step at 2 4.
    destruct (GetSize img) as [[w h] l] eqn:Es.
    rewrite !(proj1 (IH _ _)), !(proj2 (IH _ _)).
    destruct k; cbn [proj3 fst snd]; split; f_equal;
      repeat match goal with
             | |- context [?a <? ?b] => destruct (Z.ltb_spec a b)
             | |- context [?a >? ?b] => rewrite (Z.gtb_ltb a b); destruct (Z.ltb_spec b a)
             end; lia.
Qed.

Lemma find_shape_extrema_min imgs k :
  proj3 k (find_shape_extrema imgs).1 = fold_left Z.min (extents k imgs) 1000.
Proof.
  unfold find_shape_extrema.
  rewrite (proj1 (extrema_fold imgs _ _ k)). now destruct k.
Qed.

Lemma find_shape_extrema_max imgs k :
  proj3 k (find_shape_extrema imgs).2 = fold_left Z.max (extents k imgs) 0.
Proof.
  unfold find_shape_extrema.
  rewrite (proj2 (extrema_fold imgs _ _ k)). now destruct k.
Qed.

(** C10. [find_shape_extrema] starts its minima at 1000 and its maxima
    at 0: an empty list gives ((1000,1000,1000),(0,0,0)); on every axis
    the reported minimum is at most 1000 and below every extent, the
    reported maximum is at least 0 and above every extent; for a
    non-empty list whose extents all lie in 0..1000 they are the least
    and the greatest extent of the list; and when every extent on an
    axis exceeds 1000 the reported minimum is 1000. *)
Theorem find_shape_extrema_spec imgs k :
  find_shape_extrema (@nil (Image Voxels)) = (cube 1000, cube 0)
  /\ (proj3 k (find_shape_extrema imgs).1 <= 1000
      /\ Forall (fun x => proj3 k (find_shape_extrema imgs).1 <= x) (extents k imgs))
  /\ (0 <= proj3 k (find_shape_extrema imgs).2
      /\ Forall (fun x => x <= proj3 k (find_shape_extrema imgs).2) (extents k imgs))
  /\ (imgs <> [] -> Forall (fun x => 0 <= x <= 1000) (extents k imgs) ->
      proj3 k (find_shape_extrema imgs).1 ∈ extents k imgs
      /\ proj3 k (find_shape_extrema imgs).2 ∈ extents k imgs)
  /\ (Forall (fun x => 1000 < x) (extents k imgs) ->
      proj3 k (find_shape_extrema imgs).1 = 1000).
Proof.
  rewrite find_shape_extrema_min, find_shape_extrema_max.
  set (xs := extents k imgs).
  split; [reflexivity|].
  split; [split; [apply fold_min_le_init | apply fold_min_lower]|].
  split; [split; [apply fold_max_ge_init | apply fold_max_upper]|].
  split.
  - intros Hne Hall.
    assert (Hx : exists x, x ∈ xs).
    { destruct imgs as [|img rest]; [congruence|]. eexists. subst xs. simpl. constructor. }
    destruct Hx as [x Hx].
    pose proof (proj1 (Forall_forall _ _) Hall x Hx) as Hxr.
    pose proof (proj1 (Forall_forall _ _) (fold_min_lower xs 1000) x Hx) as Hlo.
    pose proof (proj1 (Forall_forall _ _) (fold_max_upper xs 0) x Hx) as Hhi.
    simpl in Hxr, Hlo, Hhi.
    split.
    + destruct (fold_min_attained xs 1000) as [E | E]; [|exact E].
      rewrite E in Hlo |- *. assert (Ex : x = 1000) by lia. now rewrite <- Ex.
    + destruct (fold_max_attained xs 0) as [E | E]; [|exact E].
      rewrite E in Hhi |- *. assert (Ex : x = 0) by lia. now rewrite <- Ex.
  - intros Hall.
    destruct (fold_min_attained xs 1000) as [E | E]; [exact E|].
    pose proof (proj1 (Forall_forall _ _) Hall _ E) as Hbig. simpl in Hbig.
    pose proof (fold_min_le_init xs 1000). lia.
Qed.

End Extrema.

(** Unfolding one function of the pipeline, by name. *)
Ltac unfold_resample_image := unfold resample_image.
Ltac unfold_resample_image_standardize := unfold resample_image_standardize.
Ltac unfold_solve_ratios := unfold solve_ratios.
Ltac unfold_getitem := unfold getitem.
Ltac unfold_crop_one := unfold crop_one.
Ltac step_crop_loop := cbn [crop_loop].
Ltac unfold_crop := unfold crop_images_to_common_dimensions.
Ltac unfold_resample_directory := unfold resample_directory.

(** Unfolding the store operations down to matches on lookups. *)
Ltac unfold_store :=
  repeat (progress (unfold bind, lift, ret, raise, get_img, update_img, alloc,
                      SetOrigin, Execute, Resample));
  cbv beta iota zeta.

(** ** Volume resampler *)

Section Resampler.

Variable Voxels : Type.
Variable resample_voxels :
  Image Voxels -> triple Z -> triple Q -> triple Q -> list Q -> Q -> Interpolator -> Voxels.

Local Abbreviation resample_image := (resample_image Voxels resample_voxels).
Local Abbreviation resample_image_standardize :=
  (resample_image_standardize Voxels resample_voxels).

Implicit Types (h : heap Voxels) (v : Image Voxels) (r : ref).

Lemma resampled_count_positive (n : Z) (sp s : Q) :
  (0 < s)%Q -> resampled_count n sp s = Ok (np_round (inject_Z n * sp / s)).
Proof.
  intros Hs. unfold resampled_count, py_truediv.
  destruct (Qeq_bool s 0) eqn:E.
  - apply Qeq_bool_iff in E. lra.
  - f_equal. apply np_round_comp. field. intros E0. lra.
Qed.

Lemma lookup_after_SetOrigin h r v :
  h !! r = Some v ->
  <[r := with_origin (0, 0, 0)%Q v]> h !! r = Some (with_origin (0, 0, 0)%Q v).
Proof.
  intros Hr. apply list_lookup_insert_eq. now apply lookup_lt_Some in Hr.
Qed.

(** Whatever its outcome, [resample_image] leaves the store as it was
    with the origin of its argument reset and at most one new image. *)
Lemma resample_image_store h r v (s : triple Q) (is_label : bool) :
  h !! r = Some v ->
  exists tail,
    (resample_image r s is_label h).2 = <[r := with_origin (0, 0, 0)%Q v]> h ++ tail.
Proof.
  intros Hr. pose proof (lookup_after_SetOrigin h r v Hr) as Hr'.
  unfold_resample_image. unfold_store.
  rewrite Hr. cbv beta iota. rewrite Hr'. cbv beta iota.
  destruct (resampled_count _ _ _); [|exists []; now rewrite app_nil_r].
  destruct (resampled_count _ _ _); [|exists []; now rewrite app_nil_r].
  destruct (resampled_count _ _ _); [|exists []; now rewrite app_nil_r].
  cbv beta iota zeta. rewrite Hr'. eexists. reflexivity.
Qed.

Lemma resample_image_standardize_store h r v (out_size : triple Z) (is_label : bool) :
  h !! r = Some v ->
  exists tail,
    (resample_image_standardize r out_size is_label h).2
      = <[r := with_origin (0, 0, 0)%Q v]> h ++ tail.
Proof.
  intros Hr. pose proof (lookup_after_SetOrigin h r v Hr) as Hr'.
  unfold_resample_image_standardize. unfold_store.
  rewrite Hr. cbv beta iota. rewrite Hr'. cbv beta iota.
  destruct (implied_spacing _ _ _); [|exists []; now rewrite app_nil_r].
  destruct (implied_spacing _ _ _); [|exists []; now rewrite app_nil_r].
  destruct (implied_spacing _ _ _); [|exists []; now rewrite app_nil_r].
  cbv beta iota zeta. rewrite Hr'. eexists. reflexivity.
Qed.


(** C8 (as the code has it). After [resample_image] and after
    [resample_image_standardize], whatever the outcome, the input volume
    is the one passed in with its origin set to (0,0,0) and nothing else
    changed; every other volume already in the store is untouched; so an
    input whose origin was (0,0,0) is left exactly as it was. *)
Theorem resample_resets_input_origin h r v (s : triple Q) (out_size : triple Z)
    (is_label : bool) :
  h !! r = Some v ->
  ((resample_image r s is_label h).2 !! r = Some (with_origin (0, 0, 0)%Q v)
   /\ (resample_image_standardize r out_size is_label h).2 !! r
      = Some (with_origin (0, 0, 0)%Q v))
  /\ (forall r', r' <> r -> (r' < length h)%nat ->
        (resample_image r s is_label h).2 !! r' = h !! r'
        /\ (resample_image_standardize r out_size is_label h).2 !! r' = h !! r')
  /\ (img_origin v = (0, 0, 0)%Q ->
        (resample_image r s is_label h).2 !! r = Some v
        /\ (resample_image_standardize r out_size is_label h).2 !! r = Some v).
Proof.
  intros Hr.
  destruct (resample_image_store h r v s is_label Hr) as [t1 E1].
  destruct (resample_image_standardize_store h r v out_size is_label Hr) as [t2 E2].
  rewrite E1, E2.
  pose proof (lookup_lt_Some _ _ _ Hr) as Hlt.
  assert (Hat : forall t, (<[r := with_origin (0, 0, 0)%Q v]> h ++ t) !! r
                          = Some (with_origin (0, 0, 0)%Q v)).
  { intros t. rewrite lookup_app_l.
    - now apply lookup_after_SetOrigin.
    - rewrite length_insert. exact Hlt. }
  split; [split; apply Hat|]. split.
  - intros r' Hne Hr'lt.
    split; (rewrite lookup_app_l; [|rewrite length_insert; exact Hr'lt]);
      apply list_lookup_insert_ne; congruence.
  - intros Ho. rewrite !Hat.
    destruct v as [sz sp o d vx]. cbn in Ho. subst o. now split.
Qed.

End Resampler.

(** ** The crop-ratio solver *)

Lemma py_truediv_nonzero (a b : Z) :
  b <> 0 -> py_truediv (inject_Z a) (inject_Z b) = Ok (inject_Z a / inject_Z b)%Q.
Proof.
  intros Hb. unfold py_truediv.
  destruct (Qeq_bool (inject_Z b) 0) eqn:E; [|reflexivity].
  apply Qeq_bool_iff in E. unfold Qeq in E. simpl in E. lia.
Qed.

Lemma py_truediv_zero (a : Q) : py_truediv a (inject_Z 0) = Raise ZeroDivisionError.
Proof. reflexivity. Qed.

(** The two branches of the per-axis block, wherever the quotient exists. *)
Lemma dynamic_ratio_formula (fgStart fgEndFromEnd : Z) :
  (fgStart > fgEndFromEnd -> fgStart <> 0 ->
   dynamic_ratio fgStart fgEndFromEnd
   = Ok (Qmax (inject_Z fgEndFromEnd / inject_Z fgStart / 2)
              (1 - inject_Z fgEndFromEnd / inject_Z fgStart / 2))%Q)
  /\ (fgStart <= fgEndFromEnd -> fgEndFromEnd <> 0 ->
      dynamic_ratio fgStart fgEndFromEnd
      = Ok (Qmin (inject_Z fgStart / inject_Z fgEndFromEnd / 2)
                 (1 - inject_Z fgStart / inject_Z fgEndFromEnd / 2))%Q).
Proof.
  unfold dynamic_ratio. split; intros Hc Hnz.
  - assert (E : (fgStart >? fgEndFromEnd) = true) by lia.
    rewrite E, py_truediv_nonzero by assumption. now rewrite py_max_Qmax.
  - assert (E : (fgStart >? fgEndFromEnd) = false) by lia.
    rewrite E, py_truediv_nonzero by assumption. now rewrite py_min_Qmin.
Qed.

(** A box that fills an axis leaves no quotient to take. *)
Lemma dynamic_ratio_whole_axis : dynamic_ratio 0 0 = Raise ZeroDivisionError.
Proof. reflexivity. Qed.

Lemma Qdiv_unit_interval (a b : Z) :
  0 <= a <= b -> 0 < b -> (0 <= inject_Z a / inject_Z b <= 1)%Q.
Proof.
  intros Ha Hb.
  assert (Hb' : (0 < inject_Z b)%Q) by (change 0%Q with (inject_Z 0); now rewrite <- Zlt_Qlt).
  assert (Ha0 : (0 <= inject_Z a)%Q) by (change 0%Q with (inject_Z 0); rewrite <- Zle_Qle; lia).
  assert (Hab : (inject_Z a <= inject_Z b)%Q) by (rewrite <- Zle_Qle; lia).
  split.
  - apply Qle_shift_div_l; [assumption|]. lra.
  - apply Qle_shift_div_r; [assumption|]. lra.
Qed.

(** Whenever the block emits a ratio for a box inside the volume, the
    ratio lies in the unit interval. *)
Lemma dynamic_ratio_unit_interval (fgStart fgEndFromEnd : Z) (q : Q) :
  0 <= fgStart -> 0 <= fgEndFromEnd ->
  dynamic_ratio fgStart fgEndFromEnd = Ok q -> (0 <= q <= 1)%Q.
Proof.
  intros Hs He. unfold dynamic_ratio.
  destruct (fgStart >? fgEndFromEnd) eqn:E.
  - rewrite py_truediv_nonzero by lia. intros [= <-].
    pose proof (Qdiv_unit_interval fgEndFromEnd fgStart ltac:(lia) ltac:(lia)) as H.
    revert H. generalize (inject_Z fgEndFromEnd / inject_Z fgStart)%Q. intros x H.
    assert (Eh : (x / 2 == x * (1 # 2))%Q) by field.
    unfold py_max. destruct (Qltb _ _); rewrite Eh; lra.
  - destruct (Z.eq_dec fgEndFromEnd 0) as [-> | Hnz].
    + assert (fgStart = 0) by lia. subst. discriminate.
    + rewrite py_truediv_nonzero by lia. intros [= <-].
      pose proof (Qdiv_unit_interval fgStart fgEndFromEnd ltac:(lia) ltac:(lia)) as H.
      revert H. generalize (inject_Z fgStart / inject_Z fgEndFromEnd)%Q. intros x H.
      assert (Eh : (x / 2 == x * (1 # 2))%Q) by field.
      unfold py_min. destruct (Qltb _ _); rewrite Eh; lra.
Qed.

(** ** The kept range of one axis *)

Lemma crop_bounds_floor (n t : Z) (r : Q) :
  0 <= t <= n -> (0 <= r <= 1)%Q ->
  crop_bounds n (n - t) r
  = (Qfloor (inject_Z (n - t) * r),
     Qfloor (inject_Z n - inject_Z (n - t) * (1 - r)))
  /\ (crop_bounds n (n - t) r).2 = (crop_bounds n (n - t) r).1 + t
  /\ 0 <= (crop_bounds n (n - t) r).1
  /\ (crop_bounds n (n - t) r).2 <= n.
Proof.
  intros Ht Hr. unfold crop_bounds. cbn [fst snd].
  set (d := inject_Z (n - t)).
  assert (Hd : (0 <= d)%Q).
  { subst d. change 0%Q with (inject_Z 0). rewrite <- Zle_Qle. lia. }
  assert (Hx : (0 <= d * r)%Q) by (apply Qmult_le_0_compat; lra).
  assert (Hxd : (d * r <= d)%Q) by nra.
  assert (Ed : (inject_Z n - d * (1 - r) == inject_Z t + d * r)%Q).
  { subst d. unfold Z.sub. rewrite inject_Z_plus, inject_Z_opp. ring. }
  assert (Ht0 : (0 <= inject_Z t)%Q).
  { change 0%Q with (inject_Z 0). rewrite <- Zle_Qle. lia. }
  rewrite (py_int_nonneg (d * r)) by assumption.
  rewrite (py_int_nonneg (inject_Z n - d * (1 - r))) by (rewrite Ed; lra).
  rewrite (Qfloor_comp _ _ Ed), Qfloor_shift.
  pose proof (Qfloor_nonneg _ Hx) as Hlo.
  assert (Hhi : Qfloor (d * r) <= n - t).
  { rewrite <- (Qfloor_Z (n - t)). now apply Qfloor_resp_le. }
  repeat split; lia.
Qed.

Lemma slice_indices_inside (len start stop : Z) :
  0 <= start -> start <= stop -> stop <= len ->
  slice_indices len start stop = (start, stop).
Proof.
  intros H0 H1 H2. unfold slice_indices, slice_index.
  assert (E1 : (start <? 0) = false) by lia.
  assert (E2 : (stop <? 0) = false) by lia.
  rewrite E1, E2. f_equal; lia.
Qed.

(** ** Cropping *)

Section Cropping.

Variable Voxels : Type.
Variable extract_voxels : Voxels -> triple Z -> triple Z -> Voxels.
Variable label_bounding_box : Image Voxels -> result BoundingBox.

Local Abbreviation solve_ratios := (solve_ratios Voxels label_bounding_box).
Local Abbreviation getitem := (getitem Voxels extract_voxels).
Local Abbreviation crop_one := (crop_one Voxels extract_voxels label_bounding_box).
Local Abbreviation crop_loop := (crop_loop Voxels extract_voxels label_bounding_box).
Local Abbreviation crop_images_to_common_dimensions :=
  (crop_images_to_common_dimensions Voxels extract_voxels label_bounding_box).

Implicit Types (h : heap Voxels) (im : Image Voxels) (b : BoundingBox).

Lemma dynamic_ratio_defined (s e : Z) :
  (s > e -> s <> 0) -> (s <= e -> e <> 0) ->
  exists q, dynamic_ratio s e = Ok q
    /\ (s > e -> q = Qmax (inject_Z e / inject_Z s / 2) (1 - inject_Z e / inject_Z s / 2))
    /\ (s <= e -> q = Qmin (inject_Z s / inject_Z e / 2) (1 - inject_Z s / inject_Z e / 2)).
Proof.
  intros H1 H2. destruct (dynamic_ratio_formula s e) as [F1 F2].
  destruct (Z_gt_le_dec s e) as [Hc | Hc].
  - eexists. split; [apply F1; auto|]. split; [reflexivity | lia].
  - eexists. split; [apply F2; auto|]. split; [lia | reflexivity].
Qed.


(** The library slice, when the range lies inside the volume. *)
Lemma getitem_inside h r im (bi bj bk : Z * Z) :
  h !! r = Some im ->
  (0 <= bi.1 /\ bi.1 <= bi.2 /\ bi.2 <= proj3 axis_x (GetSize im)) ->
  (0 <= bj.1 /\ bj.1 <= bj.2 /\ bj.2 <= proj3 axis_y (GetSize im)) ->
  (0 <= bk.1 /\ bk.1 <= bk.2 /\ bk.2 <= proj3 axis_z (GetSize im)) ->
  exists cropped,
    getitem r bi bj bk h = (Ok (length h), h ++ [cropped])
    /\ img_size cropped = (bi.2 - bi.1, bj.2 - bj.1, bk.2 - bk.1)
    /\ img_voxels cropped
       = extract_voxels (img_voxels im) (bi.1, bj.1, bk.1) (bi.2, bj.2, bk.2)
    /\ img_spacing cropped = img_spacing im
    /\ img_direction cropped = img_direction im.
Proof.
  intros Hr (Hi0 & Hi1 & Hi2) (Hj0 & Hj1 & Hj2) (Hk0 & Hk1 & Hk2).
  unfold_getitem. unfold_store. rewrite Hr. cbv beta iota.
  destruct im as [[[w hh] l] [[sx sy] sz] [[ox oy] oz] d vx].
  cbn [GetSize GetSpacing GetOrigin GetDirection img_size img_spacing img_origin
       img_direction img_voxels proj3 fst snd] in *.
  rewrite !slice_indices_inside by assumption.
  destruct (direction_apply _ _) as [[dx dy] dz].
  eexists. split; [reflexivity|].
  cbn [img_size img_voxels img_spacing img_direction].
  repeat split. f_equal; [f_equal|]; lia.
Qed.


(** *** The loop over the volumes *)

Lemma initial_ratios_empty (fixed : triple Q) (i : nat) :
  initial_ratios fixed [] i = Ok fixed.
Proof. reflexivity. Qed.

Lemma initial_ratios_replicate (fixed : triple Q) (n i : nat) :
  (i < n)%nat -> initial_ratios fixed (replicate n fixed) i = Ok fixed.
Proof.
  intros Hi. unfold initial_ratios.
  destruct n as [|n]; [lia|]. cbn [replicate].
  change (fixed :: replicate n fixed) with (replicate (S n) fixed).
  now rewrite lookup_replicate_2.
Qed.

Lemma initial_ratios_inside (fixed : triple Q) (dyn : list (triple Q)) (i : nat) :
  (i < length dyn)%nat -> is_ok (initial_ratios fixed dyn i) = true.
Proof.
  intros Hi. unfold initial_ratios. destruct dyn as [|d dyn]; [reflexivity|].
  destruct (lookup_lt_is_Some_2 (d :: dyn) i Hi) as [x ->]. reflexivity.
Qed.

Lemma initial_ratios_outside (fixed : triple Q) (dyn : list (triple Q)) (i : nat) :
  dyn <> [] -> (length dyn <= i)%nat -> initial_ratios fixed dyn i = Raise IndexError.
Proof.
  intros Hne Hi. unfold initial_ratios. destruct dyn as [|d dyn]; [congruence|].
  now rewrite (lookup_ge_None_2 (d :: dyn) i Hi).
Qed.

Lemma valid_refs_grow h (tail : list (Image Voxels)) imgs :
  valid_refs h imgs -> valid_refs (h ++ tail) imgs.
Proof.
  unfold valid_refs. intros H. eapply Forall_impl; [exact H|].
  intros r Hr. cbv beta in Hr |- *. rewrite length_app. lia.
Qed.

Lemma get_imgs_valid h imgs :
  valid_refs h imgs -> exists ims, get_imgs Voxels imgs h = (Ok ims, h).
Proof.
  induction 1 as [|r imgs Hr _ IH]; [now eexists|].
  destruct IH as [ims IH]. destruct (lookup_lt_is_Some_2 h r Hr) as [im Him].
  cbn [get_imgs]. unfold_store. rewrite Him. cbv beta iota.
  fold (get_imgs Voxels). rewrite IH. now eexists.
Qed.

(** Without the solver an iteration only reads its volume and slices it. *)
Lemma crop_one_plain h img mins fixed dyn i rs :
  (img < length h)%nat -> initial_ratios fixed dyn i = Ok rs ->
  exists c, crop_one mins fixed dyn false i img h = (Ok (length h), h ++ [c]).
Proof.
  intros Hr Hi. destruct (lookup_lt_is_Some_2 h img Hr) as [im Him].
  unfold_crop_one. unfold_getitem. unfold_store.
  rewrite Hi. cbv beta iota. rewrite Him. cbv beta iota.
  destruct (crop_ranges _ _ _) as [[bi bj] bk]. rewrite Him. cbv beta iota.
  destruct (GetSize im) as [[w hh] l], (GetSpacing Voxels im) as [[sx sy] sz],
    (GetOrigin Voxels im) as [[ox oy] oz].
  unfold slice_indices. destruct (direction_apply _ _) as [[dx dy] dz].
  now eexists.
Qed.

Lemma crop_one_index_error h img mins fixed dyn find i :
  initial_ratios fixed dyn i = Raise IndexError ->
  crop_one mins fixed dyn find i img h = (Raise IndexError, h).
Proof.
  intros Hi. unfold_crop_one. unfold_store. now rewrite Hi.
Qed.

Lemma crop_loop_plain mins fixed dyn imgs :
  forall i new h,
    valid_refs h imgs ->
    (forall j, (i <= j < i + length imgs)%nat ->
               is_ok (initial_ratios fixed dyn j) = true) ->
    exists out tail,
      crop_loop mins fixed dyn false i imgs new h = (Ok out, h ++ tail)
      /\ length out = (length new + length imgs)%nat.
Proof.
  induction imgs as [|img imgs IH]; intros i new h Hv Hok.
  - exists new, []. rewrite app_nil_r. split; [reflexivity|]. simpl. lia.
  - apply Forall_cons in Hv. destruct Hv as [Hr Hv].
    destruct (initial_ratios fixed dyn i) as [rs|] eqn:Hi.
    2:{ specialize (Hok i). rewrite Hi in Hok. simpl in Hok.
        assert (false = true) by (apply Hok; simpl; lia). discriminate. }
    destruct (crop_one_plain h img mins fixed dyn i rs Hr Hi) as [c Ec].
    step_crop_loop. unfold bind. rewrite Ec.
    destruct (IH (S i) (new ++ [length h]) (h ++ [c])) as (out & tail & E & L).
    + now apply valid_refs_grow.
    + intros j Hj. apply Hok. simpl. lia.
    + exists out, ([c] ++ tail). rewrite E, app_assoc. split; [reflexivity|].
      rewrite L, length_app. simpl. lia.
Qed.

Lemma crop_loop_same_ratios mins fixed d1 d2 find imgs :
  forall i new h,
    (forall j, (i <= j < i + length imgs)%nat ->
               initial_ratios fixed d1 j = initial_ratios fixed d2 j) ->
    crop_loop mins fixed d1 find i imgs new h = crop_loop mins fixed d2 find i imgs new h.
Proof.
  induction imgs as [|img imgs IH]; intros i new h Hsame; [reflexivity|].
  step_crop_loop. unfold bind.
  assert (E : crop_one mins fixed d1 find i img h = crop_one mins fixed d2 find i img h).
  { unfold_crop_one. unfold bind, lift.
    rewrite (Hsame i) by (simpl; lia). reflexivity. }
  rewrite E. destruct (crop_one mins fixed d2 find i img h) as [[r|e] h']; [|reflexivity].
  apply IH. intros j Hj. apply Hsame. simpl. lia.
Qed.

Lemma crop_loop_index_error mins fixed dyn imgs :
  forall i new h,
    dyn <> [] -> valid_refs h imgs ->
    (i <= length dyn)%nat -> (length dyn < i + length imgs)%nat ->
    (crop_loop mins fixed dyn false i imgs new h).1 = Raise IndexError.
Proof.
  induction imgs as [|img imgs IH]; intros i new h Hne Hv Hlo Hhi; [simpl in Hhi; lia|].
  apply Forall_cons in Hv. destruct Hv as [Hr Hv].
  step_crop_loop. unfold bind.
  destruct (Nat.eq_dec i (length dyn)) as [-> | Hlt].
  - rewrite crop_one_index_error; [reflexivity|].
    now apply initial_ratios_outside.
  - assert (Hin : (i < length dyn)%nat) by lia.
    pose proof (initial_ratios_inside fixed dyn i Hin) as Hok.
    destruct (initial_ratios fixed dyn i) as [rs|] eqn:Hi; [|discriminate].
    destruct (crop_one_plain h img mins fixed dyn i rs Hr Hi) as [c Ec].
    rewrite Ec. apply IH; [assumption | now apply valid_refs_grow | lia | simpl in Hhi; lia].
Qed.

(** The ratio list handed back with the cropped volumes is the list the
    function was called with. *)
Lemma crop_returns_its_ratio_argument h imgs fixed dyn
    (res : list ref * list (triple Q)) :
  (crop_images_to_common_dimensions imgs fixed dyn true h).1 = Ok res ->
  res.2 = dyn.
Proof.
  unfold_crop. unfold bind, ret.
  destruct (get_imgs Voxels imgs h) as [[ims|e] h1]; [|discriminate].
  destruct (find_shape_extrema ims) as [mins maxs].
  destruct (crop_loop _ _ _ _ _ _ _ _) as [[out|e] h2]; [|discriminate].
  cbn [fst]. intros [= <-]. reflexivity.
Qed.


End Cropping.

(** ** The worker-count logic of [resample_directory] *)

Section Directory.

Variable Voxels : Type.
Variable resample_voxels :
  Image Voxels -> triple Z -> triple Q -> triple Q -> list Q -> Q -> Interpolator -> Voxels.
Variable cpu_count : Z.
Variable listdir : string -> result (list string).
Variable ReadImage : string -> string -> result (Image Voxels).
Variable ReadSeries : string -> result (Image Voxels).

Local Abbreviation resample_directory :=
  (resample_directory Voxels resample_voxels cpu_count listdir ReadImage ReadSeries).

Implicit Types (h : heap Voxels).

(** C9 (what the code does). Called with [n_jobs=None], the documented
    way to ask for sequential operation, [resample_directory] raises
    [TypeError] at its first test, whatever the directory holds. *)
Theorem resample_directory_None_raises h (input_directory output_directory : string)
    (out_size : triple Z) (is_label : bool) (image : option string)
    (output_type : string) :
  (resample_directory input_directory output_directory out_size is_label image
     output_type None h).1 = Raise TypeError.
Proof. reflexivity. Qed.

(** The two illegal ranges are rejected with [ValueError]. *)
Lemma resample_directory_illegal h (input_directory output_directory : string)
    (out_size : triple Z) (is_label : bool) (image : option string)
    (output_type : string) (n : Z) :
  n = 0 \/ n < -1 ->
  (resample_directory input_directory output_directory out_size is_label image
     output_type (Some n) h).1 = Raise ValueError.
Proof.
  intros Hn. unfold_resample_directory. unfold bind, lift, raise, py_eq_int, py_lt_int.
  destruct (n =? 0) eqn:E0; [reflexivity|].
  assert (E1 : (n <? -1) = true) by lia. now rewrite E1.
Qed.

(** Whenever the call returns, the work was done by a pool: of
    [cpu_count] workers for -1 and for any larger request, of [n]
    workers otherwise.  The in-process loop is never taken. *)
Lemma resample_directory_pool h (input_directory output_directory : string)
    (out_size : triple Z) (is_label : bool) (image : option string)
    (output_type : string) (n_jobs : option Z) mode written :
  (resample_directory input_directory output_directory out_size is_label image
     output_type n_jobs h).1 = Ok (mode, written) ->
  exists n, n_jobs = Some n
    /\ mode = Some (if (n =? -1) || (n >? cpu_count) then cpu_count else n).
Proof.
  destruct n_jobs as [n|]; [|discriminate].
  unfold_resample_directory. unfold bind, lift, raise, ret, py_eq_int, py_lt_int,
    py_gt_int, Pool.
  destruct (n =? 0) eqn:E0; [discriminate|].
  destruct (n <? -1) eqn:E1; [discriminate|].
  destruct (listdir input_directory) as [names|e]; [|discriminate].
  cbn [is_not_None orb].
  intros H. exists n. split; [reflexivity|].
  destruct (n =? -1) eqn:E2; cbn [orb] in *.
  - destruct (cpu_count <? 1); [discriminate|].
    destruct (for_each _ _ _ _ _) as [[w|e] h']; [|discriminate].
    now injection H as <- _.
  - destruct (n >? cpu_count).
    + destruct (cpu_count <? 1); [discriminate|].
      destruct (for_each _ _ _ _ _) as [[w|e] h']; [|discriminate].
      now injection H as <- _.
    + destruct (n <? 1); [discriminate|].
      destruct (for_each _ _ _ _ _) as [[w|e] h']; [|discriminate].
      now injection H as <- _.
Qed.

End Directory.

(** * Worked examples on phantoms *)

(** C1 (what the code does). Two image/mask pairs are run through the
    full pipeline.  The mask pass solves the ratio 3/4 for the first
    mask and keeps the range 3:9, but the ratio list it hands back is
    empty; the image pass then falls back to the fixed ratio 1/2 and
    keeps the range 2:8 of the paired image. *)
Theorem pipeline_image_crop_ignores_mask_ratios :
  (run_mask_stage paired_dataset [2; 3]%nat).1 = Ok ([6; 7]%nat, [])
  /\ solve_ratios Phantom phantom_bounding_box (phantom 10 4 4)
     = Ok (6 # 8, 6 # 8, 6 # 8)%Q
  /\ (run_pipeline paired_dataset [0; 1]%nat [2; 3]%nat (cube 4) false).1
     = Ok ([14; 15]%nat, [8; 9]%nat)
  /\ window_at (run_pipeline paired_dataset [0; 1]%nat [2; 3]%nat (cube 4) false).2 8
     = Some (cube 3, cube 9)
  /\ window_at (run_pipeline paired_dataset [0; 1]%nat [2; 3]%nat (cube 4) false).2 14
     = Some (cube 2, cube 8).
Proof. vm_compute. repeat split. Qed.

(** C2 (what the code does). Three masks of 50, 60 and 40 voxels per
    axis, respaced to the spacing they already have and cropped with the
    solver on: the crop target is (40,40,40), every cropped mask has that
    shape, and the ratio list returned has length 0. *)
Theorem three_masks_crop_returns_no_ratios :
  (find_shape_extrema three_masks).1 = cube 40
  /\ (run_mask_stage three_masks [0; 1; 2]%nat).1 = Ok ([6; 7; 8]%nat, [])
  /\ map (size_at (run_mask_stage three_masks [0; 1; 2]%nat).2) [6; 7; 8]%nat
     = [Some (cube 40); Some (cube 40); Some (cube 40)]
  /\ match (run_mask_stage three_masks [0; 1; 2]%nat).1 with
     | Ok (_, ratios) => length ratios = 0%nat
     | Raise _ => False
     end.
Proof. vm_compute. repeat split. Qed.


(** C4 (what the code does). A mask whose foreground box starts at 0
    and spans the whole of each axis makes the solver divide 0 by 0: the
    crop stage raises [ZeroDivisionError], alone or beside other masks. *)
Theorem solver_full_span_box_raises :
  phantom_bounding_box full_span_mask = Ok (mkBox (cube 0) (GetSize full_span_mask))
  /\ (run_crop [full_span_mask] [0%nat] [] true).1 = Raise ZeroDivisionError
  /\ (run_crop [phantom 50 10 20; full_span_mask] [0; 1]%nat [] true).1
     = Raise ZeroDivisionError.
Proof. vm_compute. repeat split. Qed.


(** The counterexample to C8: a volume with origin (1,2,3) is passed to
    each resampler; afterwards the store holds it with origin (0,0,0). *)
Lemma resample_moves_input_origin :
  img_origin offset_phantom = (1, 2, 3)%Q
  /\ img_origin <$>
       (resample_image Phantom phantom_resample 0%nat (4, 4, 4)%Q false
          [offset_phantom]).2 !! 0%nat
     = Some (0, 0, 0)%Q
  /\ img_origin <$>
       (resample_image_standardize Phantom phantom_resample 0%nat (cube 4) false
          [offset_phantom]).2 !! 0%nat
     = Some (0, 0, 0)%Q.
Proof. vm_compute. repeat split. Qed.

(** ** The general statements at concrete inputs *)

Lemma find_shape_extrema_spec_witness :
  three_masks <> []
  /\ Forall (fun x => 0 <= x <= 1000) (extents axis_x three_masks)
  /\ proj3 axis_x (find_shape_extrema three_masks).1 ∈ extents axis_x three_masks
  /\ proj3 axis_x (find_shape_extrema three_masks).2 ∈ extents axis_x three_masks.
Proof.
  assert (Hne : three_masks <> []) by discriminate.
  assert (Hall : Forall (fun x => 0 <= x <= 1000) (extents axis_x three_masks)).
  { repeat constructor; vm_compute; discriminate. }
  destruct (find_shape_extrema_spec Phantom three_masks axis_x) as (_ & _ & _ & H & _).
  destruct (H Hne Hall) as [Hmin Hmax].
  exact (conj Hne (conj Hall (conj Hmin Hmax))).
Defined.


Lemma resample_resets_input_origin_witness :
  [offset_phantom] !! 0%nat = Some offset_phantom
  /\ (resample_image Phantom phantom_resample 0%nat (4, 4, 4)%Q false
        [offset_phantom]).2 !! 0%nat
     = Some (with_origin (0, 0, 0)%Q offset_phantom).
Proof.
  split; [reflexivity|].
  apply (resample_resets_input_origin Phantom phantom_resample [offset_phantom] 0%nat
           offset_phantom (4, 4, 4)%Q (cube 4) false).
  reflexivity.
Defined.




(** * Further properties of the pipeline *)

(** ** What a call leaves in the store *)

Section Frame.

Variable Voxels : Type.
Variable resample_voxels :
  Image Voxels -> triple Z -> triple Q -> triple Q -> list Q -> Q -> Interpolator -> Voxels.
Variable extract_voxels : Voxels -> triple Z -> triple Z -> Voxels.
Variable label_bounding_box : Image Voxels -> result BoundingBox.
Variable cpu_count : Z.

Implicit Types (h : heap Voxels) (im : Image Voxels) (r : ref).

Lemma with_origin_idem (o o' : triple Q) im :
  with_origin o (with_origin o' im) = with_origin o im.
Proof. reflexivity. Qed.

Lemma with_origin_self im : with_origin (img_origin im) im = im.
Proof. now destruct im. Qed.

Lemma extends_refl h : extends h h.
Proof. split; [lia|]. intros r im Hr. now left. Qed.

Lemma extends_trans h1 h2 h3 : extends h1 h2 -> extends h2 h3 -> extends h1 h3.
Proof.
  intros [L1 K1] [L2 K2]. split; [lia|].
  intros r im Hr. destruct (K1 r im Hr) as [Ho | Ho].
  - exact (K2 r im Ho).
  - right. destruct (K2 r _ Ho) as [Ho' | Ho']; exact Ho'.
Qed.

Lemma extends_app h (tail : list (Image Voxels)) : extends h (h ++ tail).
Proof.
  split; [rewrite length_app; lia|].
  intros r im Hr. left. now apply lookup_app_l_Some.
Qed.

Lemma extends_set_origin h r im :
  h !! r = Some im -> extends h (<[r := with_origin (0, 0, 0)%Q im]> h).
Proof.
  intros Hr. split; [rewrite length_insert; lia|].
  intros r' im' Hr'. destruct (Nat.eq_dec r' r) as [-> | Hne].
  - assert (im' = im) by congruence. subst im'. right.
    apply list_lookup_insert_eq. now apply lookup_lt_Some in Hr.
  - left. rewrite list_lookup_insert_ne by congruence. exact Hr'.
Qed.

Lemma at_ref_extends h h' r im : at_ref h r im -> extends h h' -> at_ref h' r im.
Proof.
  intros [Hr | Hr] [_ K]; destruct (K r _ Hr) as [E | E]; unfold at_ref; auto.
Qed.

Lemma preserving_ret {A} (a : A) : preserving (ret (Voxels:=Voxels) a).
Proof. intros h. apply extends_refl. Qed.

Lemma preserving_raise {A} (e : exn) : preserving (raise Voxels (A:=A) e).
Proof. intros h. apply extends_refl. Qed.

Lemma preserving_lift {A} (x : result A) : preserving (lift Voxels x).
Proof. intros h. apply extends_refl. Qed.

Lemma preserving_bind {A B} (m : M Voxels A) (k : A -> M Voxels B) :
  preserving m -> (forall a, preserving (k a)) -> preserving (bind Voxels m k).
Proof.
  intros Hm Hk h. unfold bind. specialize (Hm h).
  destruct (m h) as [[a|e] h1]; cbn [snd] in *; [|exact Hm].
  eapply extends_trans; [exact Hm | apply Hk].
Qed.

Lemma preserving_get_img r : preserving (get_img (Voxels:=Voxels) r).
Proof.
  intros h. unfold get_img. destruct (h !! r); apply extends_refl.
Qed.

Lemma preserving_alloc im : preserving (alloc Voxels im).
Proof. intros h. apply extends_app. Qed.

Lemma preserving_SetOrigin r : preserving (SetOrigin Voxels r (0, 0, 0)%Q).
Proof.
  intros h. unfold SetOrigin, update_img. destruct (h !! r) as [im|] eqn:Hr.
  - now apply extends_set_origin.
  - apply extends_refl.
Qed.

Lemma preserving_for_each {A B} (helper : A -> M Voxels B) (args : list A) :
  (forall a, preserving (helper a)) ->
  forall results, preserving (for_each Voxels helper args results).
Proof.
  intros Hh. induction args as [|a args IH]; intros results; cbn [for_each].
  - apply preserving_ret.
  - apply preserving_bind; [apply Hh | intros b; apply IH].
Qed.

Lemma preserving_in_worker {A B} (helper : A -> M Voxels B) (a : A) :
  preserving (in_worker Voxels helper a).
Proof. intros h. apply extends_refl. Qed.

Lemma preserving_in_worker_image {A} (helper : A -> M Voxels ref) (a : A) :
  preserving (in_worker_image Voxels helper a).
Proof.
  intros h. unfold in_worker_image.
  destruct (helper a h) as [[r|e] hw]; [|apply extends_refl].
  destruct (hw !! r); [apply extends_app | apply extends_refl].
Qed.

(** Closing a goal [preserving m] by the structure of [m]. *)
Ltac preserve :=
  repeat first
    [ apply preserving_ret | apply preserving_raise | apply preserving_lift
    | apply preserving_get_img | apply preserving_alloc | apply preserving_SetOrigin
    | apply preserving_in_worker | apply preserving_in_worker_image
    | apply preserving_for_each; intros
    | apply preserving_bind; [|intros] ].

Lemma preserving_resample_image r (s : triple Q) (is_label : bool) :
  preserving (resample_image Voxels resample_voxels r s is_label).
Proof. unfold resample_image, Execute. preserve. Qed.

Lemma preserving_resample_image_standardize r (out_size : triple Z) (is_label : bool) :
  preserving (resample_image_standardize Voxels resample_voxels r out_size is_label).
Proof. unfold resample_image_standardize, Resample. preserve. Qed.

Lemma preserving_getitem r (bi bj bk : Z * Z) :
  preserving (getitem Voxels extract_voxels r bi bj bk).
Proof.
  unfold getitem. apply preserving_bind; [apply preserving_get_img|].
  intros im. destruct (GetSize im) as [[w hh] l].
  unfold slice_indices. destruct (GetSpacing Voxels im) as [[sx sy] sz].
  destruct (GetOrigin Voxels im) as [[ox oy] oz].
  destruct (direction_apply _ _) as [[dx dy] dz]. apply preserving_alloc.
Qed.

Lemma preserving_crop_one mins fixed dyn (find : bool) (i : nat) r :
  preserving (crop_one Voxels extract_voxels label_bounding_box mins fixed dyn find i r).
Proof.
  unfold crop_one. apply preserving_bind; [apply preserving_lift|]. intros rs0.
  apply preserving_bind; [apply preserving_get_img|]. intros im.
  apply preserving_bind; [destruct find; preserve|]. intros rs.
  destruct (crop_ranges _ _ _) as [[bi bj] bk]. apply preserving_getitem.
Qed.

Lemma preserving_crop_loop mins fixed dyn (find : bool) (imgs : list ref) :
  forall i new,
    preserving (crop_loop Voxels extract_voxels label_bounding_box mins fixed dyn find
                  i imgs new).
Proof.
  induction imgs as [|img imgs IH]; intros i new; cbn [crop_loop].
  - apply preserving_ret.
  - apply preserving_bind; [apply preserving_crop_one | intros r; apply IH].
Qed.

Lemma preserving_get_imgs (imgs : list ref) : preserving (get_imgs Voxels imgs).
Proof.
  induction imgs as [|r imgs IH]; cbn [get_imgs]; preserve. exact IH.
Qed.

Lemma preserving_crop (imgs : list ref) fixed dyn (find : bool) :
  preserving (crop_images_to_common_dimensions Voxels extract_voxels label_bounding_box
                imgs fixed dyn find).
Proof.
  unfold crop_images_to_common_dimensions.
  apply preserving_bind; [apply preserving_get_imgs|]. intros ims.
  destruct (find_shape_extrema ims) as [mins maxs].
  apply preserving_bind; [apply preserving_crop_loop|]. intros new.
  destruct find; apply preserving_ret.
Qed.

Lemma preserving_resample_images (imgs : list ref) (s : triple Q) (is_label : bool)
    (n_jobs : option Z) :
  preserving (resample_images Voxels resample_voxels cpu_count imgs s is_label n_jobs).
Proof.
  unfold resample_images. destruct (py_eq_int n_jobs 1); preserve.
  destruct a as [[r s'] l]. apply preserving_resample_image.
Qed.

Lemma preserving_resample_images_standardize (imgs : list ref) (out_size : triple Z)
    (is_label : bool) (n_jobs : option Z) :
  preserving (resample_images_standardize Voxels resample_voxels cpu_count imgs out_size
                is_label n_jobs).
Proof.
  unfold resample_images_standardize. destruct (py_eq_int n_jobs 1); preserve.
  destruct a as [[r s'] l]. apply preserving_resample_image_standardize.
Qed.

(** X1. Whatever its arguments and its outcome, [resampling_pipeline]
    keeps every volume that was in the store, as it was or with its
    origin reset to zero: it never removes, reshapes, respaces or
    resamples a volume in place. *)
Theorem pipeline_keeps_existing_volumes (imgs masks : list ref) (out_spacing : triple Q)
    (out_size : triple Z) (masks_only : bool) (n_jobs : option Z) (h : heap Voxels) :
  extends h
    (resampling_pipeline Voxels resample_voxels extract_voxels label_bounding_box
       cpu_count imgs masks out_spacing out_size masks_only n_jobs h).2.
Proof.
  revert h. change (preserving
    (resampling_pipeline Voxels resample_voxels extract_voxels label_bounding_box
       cpu_count imgs masks out_spacing out_size masks_only n_jobs)).
  unfold resampling_pipeline.
  apply preserving_bind; [apply preserving_resample_images|]. intros masks1.
  apply preserving_bind; [apply preserving_crop|]. intros [masks2 ratios].
  apply preserving_bind; [apply preserving_resample_images_standardize|]. intros masks3.
  destruct masks_only; [apply preserving_ret|].
  apply preserving_bind; [apply preserving_resample_images|]. intros imgs1.
  apply preserving_bind; [apply preserving_crop|]. intros imgs2.
  apply preserving_bind; [apply preserving_resample_images_standardize|]. intros imgs3.
  apply preserving_ret.
Qed.

End Frame.

(** ** Calls that only allocate *)

Section Appending.

Variable Voxels : Type.
Variable resample_voxels :
  Image Voxels -> triple Z -> triple Q -> triple Q -> list Q -> Q -> Interpolator -> Voxels.
Variable extract_voxels : Voxels -> triple Z -> triple Z -> Voxels.
Variable label_bounding_box : Image Voxels -> result BoundingBox.
Variable cpu_count : Z.

Implicit Types (h : heap Voxels) (im : Image Voxels) (r : ref).

Lemma appending_ret {A} (a : A) : appending (ret (Voxels:=Voxels) a).
Proof. intros h. exists []. now rewrite app_nil_r. Qed.

Lemma appending_raise {A} (e : exn) : appending (raise Voxels (A:=A) e).
Proof. intros h. exists []. now rewrite app_nil_r. Qed.

Lemma appending_lift {A} (x : result A) : appending (lift Voxels x).
Proof. intros h. exists []. now rewrite app_nil_r. Qed.

Lemma appending_get_img r : appending (get_img (Voxels:=Voxels) r).
Proof.
  intros h. exists []. unfold get_img. destruct (h !! r); now rewrite app_nil_r.
Qed.

Lemma appending_alloc im : appending (alloc Voxels im).
Proof. intros h. now exists [im]. Qed.

Lemma appending_bind {A B} (m : M Voxels A) (k : A -> M Voxels B) :
  appending m -> (forall a, appending (k a)) -> appending (bind Voxels m k).
Proof.
  intros Hm Hk h. unfold bind. destruct (Hm h) as [t1 E1].
  destruct (m h) as [[a|e] h1]; cbn [snd] in *; subst h1; [|now exists t1].
  destruct (Hk a (h ++ t1)) as [t2 E2]. exists (t1 ++ t2). now rewrite E2, app_assoc.
Qed.

Lemma appending_for_each {A B} (helper : A -> M Voxels B) (args : list A) :
  (forall a, appending (helper a)) ->
  forall results, appending (for_each Voxels helper args results).
Proof.
  intros Hh. induction args as [|a args IH]; intros results; cbn [for_each].
  - apply appending_ret.
  - apply appending_bind; [apply Hh | intros b; apply IH].
Qed.

Lemma appending_in_worker_image {A} (helper : A -> M Voxels ref) (a : A) :
  appending (in_worker_image Voxels helper a).
Proof.
  intros h. unfold in_worker_image.
  destruct (helper a h) as [[r|e] hw]; [|exists []; now rewrite app_nil_r].
  destruct (hw !! r) as [im|]; [now exists [im] | exists []; now rewrite app_nil_r].
Qed.

Lemma appending_getitem r (bi bj bk : Z * Z) :
  appending (getitem Voxels extract_voxels r bi bj bk).
Proof.
  unfold getitem. apply appending_bind; [apply appending_get_img|].
  intros im. destruct (GetSize im) as [[w hh] l].
  unfold slice_indices. destruct (GetSpacing Voxels im) as [[sx sy] sz].
  destruct (GetOrigin Voxels im) as [[ox oy] oz].
  destruct (direction_apply _ _) as [[dx dy] dz]. apply appending_alloc.
Qed.

Lemma appending_crop_one mins fixed dyn (find : bool) (i : nat) r :
  appending (crop_one Voxels extract_voxels label_bounding_box mins fixed dyn find i r).
Proof.
  unfold crop_one. apply appending_bind; [apply appending_lift|]. intros rs0.
  apply appending_bind; [apply appending_get_img|]. intros im.
  apply appending_bind;
    [destruct find; [apply appending_lift | apply appending_ret]|]. intros rs.
  destruct (crop_ranges _ _ _) as [[bi bj] bk]. apply appending_getitem.
Qed.

Lemma appending_crop_loop mins fixed dyn (find : bool) (imgs : list ref) :
  forall i new,
    appending (crop_loop Voxels extract_voxels label_bounding_box mins fixed dyn find
                 i imgs new).
Proof.
  induction imgs as [|img imgs IH]; intros i new; cbn [crop_loop].
  - apply appending_ret.
  - apply appending_bind; [apply appending_crop_one | intros r; apply IH].
Qed.

Lemma appending_get_imgs (imgs : list ref) : appending (get_imgs Voxels imgs).
Proof.
  induction imgs as [|r imgs IH]; cbn [get_imgs]; [apply appending_ret|].
  apply appending_bind; [apply appending_get_img|]. intros im.
  apply appending_bind; [exact IH|]. intros ims. apply appending_ret.
Qed.

(** X2. Cropping never touches a volume already in the store: in every
    mode and whatever the outcome, [crop_images_to_common_dimensions]
    leaves the store it found as a prefix of the store it leaves. *)
Theorem crop_only_allocates (imgs : list ref) (fixed : triple Q)
    (dyn : list (triple Q)) (find : bool) (h : heap Voxels) :
  exists tail,
    (crop_images_to_common_dimensions Voxels extract_voxels label_bounding_box
       imgs fixed dyn find h).2 = h ++ tail.
Proof.
  revert h. change (appending
    (crop_images_to_common_dimensions Voxels extract_voxels label_bounding_box
       imgs fixed dyn find)).
  unfold crop_images_to_common_dimensions.
  apply appending_bind; [apply appending_get_imgs|]. intros ims.
  destruct (find_shape_extrema ims) as [mins maxs].
  apply appending_bind; [apply appending_crop_loop|]. intros new.
  destruct find; apply appending_ret.
Qed.

(** X3. Run through a worker pool ([n_jobs] other than 1), the two list
    resamplers leave every volume of the caller's store exactly as it
    was, origin included: the workers reset the origin of their own
    copies only. *)
Theorem pool_resampling_leaves_inputs (imgs : list ref) (out_spacing : triple Q)
    (out_size : triple Z) (is_label : bool) (n_jobs : option Z) (h : heap Voxels) :
  py_eq_int n_jobs 1 = false ->
  (exists tail,
     (resample_images Voxels resample_voxels cpu_count imgs out_spacing is_label
        n_jobs h).2 = h ++ tail)
  /\ (exists tail,
        (resample_images_standardize Voxels resample_voxels cpu_count imgs out_size
           is_label n_jobs h).2 = h ++ tail).
Proof.
  intros Hn. unfold resample_images, resample_images_standardize. rewrite Hn.
  split.
  - apply (appending_bind _ _ (appending_lift _)). intros _.
    apply appending_for_each. intros a. apply appending_in_worker_image.
  - apply (appending_bind _ _ (appending_lift _)). intros _.
    apply appending_for_each. intros a. apply appending_in_worker_image.
Qed.

End Appending.

(** ** The two resamplers, exactly *)

Section ResamplerOutputs.

Variable Voxels : Type.
Variable resample_voxels :
  Image Voxels -> triple Z -> triple Q -> triple Q -> list Q -> Q -> Interpolator -> Voxels.

Implicit Types (h : heap Voxels) (im v : Image Voxels) (r : ref).

Lemma py_truediv_defined (a b : Q) : ~ (b == 0)%Q -> py_truediv a b = Ok (a / b)%Q.
Proof.
  intros Hb. unfold py_truediv. destruct (Qeq_bool b 0) eqn:E; [|reflexivity].
  apply Qeq_bool_iff in E. contradiction.
Qed.

Lemma py_truediv_by_zero (a b : Q) : (b == 0)%Q -> py_truediv a b = Raise ZeroDivisionError.
Proof.
  intros Hb. unfold py_truediv. apply Qeq_bool_iff in Hb. now rewrite Hb.
Qed.

Lemma inject_Z_nonzero (n : Z) : n <> 0 -> ~ (inject_Z n == 0)%Q.
Proof. intros Hn E. unfold Qeq in E. simpl in E. lia. Qed.

(** The call on a volume known up to its origin: the input ends with
    origin zero and the output is appended. *)
Lemma resample_image_exact h r im (s : triple Q) (is_label : bool) :
  at_ref h r im ->
  (forall k, ~ (proj3 k s == 0)%Q) ->
  resample_image Voxels resample_voxels r s is_label h
  = (Ok (length h),
     <[r := with_origin (0, 0, 0)%Q im]> h ++ [resample_output resample_voxels im s is_label]).
Proof.
  intros Hat Hs.
  assert (Hr' : <[r := with_origin (0, 0, 0)%Q im]> h !! r
                = Some (with_origin (0, 0, 0)%Q im)).
  { apply list_lookup_insert_eq. destruct Hat as [Hr | Hr]; now apply lookup_lt_Some in Hr. }
  unfold_resample_image. unfold_store.
  destruct Hat as [Hr | Hr]; rewrite Hr; cbv beta iota;
    rewrite ?with_origin_idem; rewrite Hr'; cbv beta iota.
  all: unfold resampled_count; cbn [GetSpacing GetSize with_origin img_size img_spacing];
    rewrite (py_truediv_defined _ _ (Hs axis_x)), (py_truediv_defined _ _ (Hs axis_y)),
      (py_truediv_defined _ _ (Hs axis_z));
    cbv beta iota zeta; rewrite Hr'; rewrite length_insert;
    destruct is_label; reflexivity.
Qed.

Lemma resample_image_standardize_exact h r im (out_size : triple Z) (is_label : bool) :
  at_ref h r im ->
  (forall k, proj3 k out_size <> 0) ->
  resample_image_standardize Voxels resample_voxels r out_size is_label h
  = (Ok (length h),
     <[r := with_origin (0, 0, 0)%Q im]> h
     ++ [standardize_output resample_voxels im out_size is_label]).
Proof.
  intros Hat Hs.
  assert (Hr' : <[r := with_origin (0, 0, 0)%Q im]> h !! r
                = Some (with_origin (0, 0, 0)%Q im)).
  { apply list_lookup_insert_eq. destruct Hat as [Hr | Hr]; now apply lookup_lt_Some in Hr. }
  unfold_resample_image_standardize. unfold_store.
  destruct Hat as [Hr | Hr]; rewrite Hr; cbv beta iota;
    rewrite ?with_origin_idem; rewrite Hr'; cbv beta iota.
  all: unfold implied_spacing; cbn [GetSpacing GetSize with_origin img_size img_spacing];
    rewrite (py_truediv_defined _ _ (inject_Z_nonzero _ (Hs axis_x))),
      (py_truediv_defined _ _ (inject_Z_nonzero _ (Hs axis_y))),
      (py_truediv_defined _ _ (inject_Z_nonzero _ (Hs axis_z)));
    cbv beta iota zeta; rewrite Hr'; rewrite length_insert;
    destruct is_label; reflexivity.
Qed.

Lemma at_ref_here h r v : h !! r = Some v -> at_ref h r v.
Proof. intros Hr. now left. Qed.



(** X6. Resampling a volume to the spacing it already has keeps its
    shape, spacing and direction; the copy has origin zero. *)
Theorem resample_image_same_spacing h r v (is_label : bool) :
  h !! r = Some v ->
  (forall k, ~ (proj3 k (img_spacing v) == 0)%Q) ->
  exists v' h',
    resample_image Voxels resample_voxels r (img_spacing v) is_label h
    = (Ok (length h), h')
    /\ h' !! length h = Some v'
    /\ img_size v' = img_size v
    /\ img_spacing v' = img_spacing v
    /\ img_direction v' = img_direction v
    /\ img_origin v' = (0, 0, 0)%Q.
Proof.
  intros Hr Hs.
  rewrite (resample_image_exact h r v (img_spacing v) is_label (at_ref_here h r v Hr) Hs).
  eexists _, _. split; [reflexivity|]. split.
  { apply list_lookup_middle. now rewrite length_insert. }
  repeat split.
  destruct v as [[[w hh] l] [[sx sy] sz] o d vx].
  cbn [resample_output img_size img_spacing fst snd proj3] in *.
  pose proof (Hs axis_x) as Hx. pose proof (Hs axis_y) as Hy. pose proof (Hs axis_z) as Hz.
  cbn [proj3 fst snd] in Hx, Hy, Hz.
  assert (E : forall (n : Z) (q : Q), ~ (q == 0)%Q -> np_round (inject_Z n * (q / q)) = n).
  { intros n q Hq. rewrite <- (np_round_Z n) at 2. apply np_round_comp. now field. }
  now rewrite !E by assumption.
Qed.

End ResamplerOutputs.

(** ** A stage over a list of volumes *)

Section Stages.

Variable Voxels : Type.
Variable resample_voxels :
  Image Voxels -> triple Z -> triple Q -> triple Q -> list Q -> Q -> Interpolator -> Voxels.
Variable extract_voxels : Voxels -> triple Z -> triple Z -> Voxels.
Variable label_bounding_box : Image Voxels -> result BoundingBox.
Variable cpu_count : Z.

Implicit Types (h : heap Voxels) (im v : Image Voxels) (r : ref).

Lemma Forall2_at_ref_extends h h' (imgs : list ref) (ims : list (Image Voxels)) :
  Forall2 (at_ref h) imgs ims -> extends h h' -> Forall2 (at_ref h') imgs ims.
Proof.
  intros H He. eapply Forall2_impl; [exact H|].
  intros r im Hr. cbv beta. eapply at_ref_extends; eassumption.
Qed.

Lemma Forall2_here h (imgs : list ref) (ims : list (Image Voxels)) :
  Forall2 (fun r im => h !! r = Some im) imgs ims -> Forall2 (at_ref h) imgs ims.
Proof.
  intros H. eapply Forall2_impl; [exact H|]. intros r im Hr. now left.
Qed.

Lemma Forall2_map_r_inv {A B C} (P : A -> C -> Prop) (g : B -> C) (k : list B) :
  forall l : list A, Forall2 P l (map g k) -> Forall2 (fun x y => P x (g y)) l k.
Proof.
  induction k as [|y k IH]; intros l H; cbn [map] in H.
  - apply Forall2_nil_inv_r in H. subst. constructor.
  - apply Forall2_cons_inv_r in H. destruct H as (x & l' & Hx & Hl & ->).
    constructor; [exact Hx | now apply IH].
Qed.

(** A helper that appends [out im] when handed a reference to [im],
    run over a list. *)
Lemma for_each_stage {A} (helper : A -> M Voxels ref) (mk : ref -> A)
    (out : Image Voxels -> Image Voxels) :
  (forall r im h, at_ref h r im ->
     exists h', helper (mk r) h = (Ok (length h), h')
                /\ extends h h' /\ h' !! length h = Some (out im)) ->
  forall (imgs : list ref) (ims : list (Image Voxels)) (results : list ref) h,
    Forall2 (at_ref h) imgs ims ->
    exists outs h',
      for_each Voxels helper (map mk imgs) results h = (Ok (results ++ outs), h')
      /\ extends h h'
      /\ Forall2 (at_ref h') outs (map out ims).
Proof.
  intros Hh imgs. induction imgs as [|r imgs IH]; intros ims results h Hall.
  - apply Forall2_nil_inv_l in Hall. subst ims.
    exists [], h. rewrite app_nil_r. split; [reflexivity|].
    split; [apply extends_refl | constructor].
  - apply Forall2_cons_inv_l in Hall. destruct Hall as (im & ims' & Hr & Hrest & ->).
    destruct (Hh r im h Hr) as (h1 & E1 & X1 & L1).
    destruct (IH ims' (results ++ [length h]) h1
                (Forall2_at_ref_extends _ _ _ _ Hrest X1)) as (outs & h' & E & X & F).
    exists (length h :: outs), h'. cbn [map for_each]. unfold bind. rewrite E1, E.
    split; [now rewrite <- app_assoc|].
    split; [eapply extends_trans; eassumption|].
    constructor; [|exact F].
    eapply at_ref_extends; [|exact X]. now left.
Qed.

Lemma sequential_helper {A} (helper : A -> M Voxels ref) (mk : ref -> A)
    (out : Image Voxels -> Image Voxels) :
  (forall r im h, at_ref h r im ->
     helper (mk r) h
     = (Ok (length h), <[r := with_origin (0, 0, 0)%Q im]> h ++ [out im])) ->
  forall r im h, at_ref h r im ->
    exists h', helper (mk r) h = (Ok (length h), h')
               /\ extends h h' /\ h' !! length h = Some (out im).
Proof.
  intros Hh r im h Hr. eexists. split; [apply Hh; exact Hr|]. split.
  - eapply extends_trans; [|apply extends_app].
    destruct Hr as [Hr | Hr].
    + now apply extends_set_origin.
    + apply (extends_set_origin _ h r (with_origin (0, 0, 0)%Q im) Hr).
  - apply list_lookup_middle. now rewrite length_insert.
Qed.

Lemma worker_helper {A} (helper : A -> M Voxels ref) (mk : ref -> A)
    (out : Image Voxels -> Image Voxels) :
  (forall r im h, at_ref h r im ->
     helper (mk r) h
     = (Ok (length h), <[r := with_origin (0, 0, 0)%Q im]> h ++ [out im])) ->
  forall r im h, at_ref h r im ->
    exists h', in_worker_image Voxels helper (mk r) h = (Ok (length h), h')
               /\ extends h h' /\ h' !! length h = Some (out im).
Proof.
  intros Hh r im h Hr. exists (h ++ [out im]).
  unfold in_worker_image. rewrite (Hh r im h Hr).
  rewrite list_lookup_middle by now rewrite length_insert.
  split; [reflexivity|]. split; [apply extends_app|].
  now apply list_lookup_middle.
Qed.

Lemma Pool_accepts (n_jobs : option Z) :
  n_jobs = None \/ (exists n, n_jobs = Some n /\ 1 <= n) ->
  exists p, Pool cpu_count n_jobs = Ok p.
Proof.
  intros [-> | (n & -> & Hn)]; unfold Pool; [now eexists|].
  assert (E : (n <? 1) = false) by lia. rewrite E. now eexists.
Qed.

Lemma resample_images_stage h (imgs : list ref) (ims : list (Image Voxels))
    (s : triple Q) (is_label : bool) (n_jobs : option Z) :
  Forall2 (at_ref h) imgs ims ->
  (forall k, (0 < proj3 k s)%Q) ->
  n_jobs = None \/ (exists n, n_jobs = Some n /\ 1 <= n) ->
  exists outs h',
    resample_images Voxels resample_voxels cpu_count imgs s is_label n_jobs h
    = (Ok outs, h')
    /\ extends h h'
    /\ Forall2 (fun r' im => h' !! r' = Some (resample_output resample_voxels im s is_label))
         outs ims.
Proof.
  intros Hall Hs Hn.
  assert (Hex : forall r im h0, at_ref h0 r im ->
            resample_image_helper Voxels resample_voxels (r, s, is_label) h0
            = (Ok (length h0),
               <[r := with_origin (0, 0, 0)%Q im]> h0
               ++ [resample_output resample_voxels im s is_label])).
  { intros r im h0 Hr. cbn [resample_image_helper].
    apply resample_image_exact; [exact Hr|]. intros k E. specialize (Hs k). lra. }
  assert (Hfin : forall outs h',
            Forall2 (at_ref h') outs
              (map (fun im => resample_output resample_voxels im s is_label) ims) ->
            Forall2 (fun r' im => h' !! r' = Some (resample_output resample_voxels im s is_label))
              outs ims).
  { intros outs h' F. apply Forall2_map_r_inv in F.
    eapply Forall2_impl; [exact F|]. intros r' im [E | E]; exact E. }
  unfold resample_images. destruct (py_eq_int n_jobs 1).
  - destruct (for_each_stage _ (fun r => (r, s, is_label)) _
                (sequential_helper _ _ _ Hex) imgs ims [] h Hall) as (outs & h' & E & X & F).
    exists outs, h'. split; [exact E|]. split; [exact X | now apply Hfin].
  - destruct (Pool_accepts n_jobs Hn) as [p Ep]. unfold bind, lift. rewrite Ep.
    destruct (for_each_stage _ (fun r => (r, s, is_label)) _
                (worker_helper _ _ _ Hex) imgs ims [] h Hall) as (outs & h' & E & X & F).
    exists outs, h'. split; [exact E|]. split; [exact X | now apply Hfin].
Qed.

Lemma resample_images_standardize_stage h (imgs : list ref) (ims : list (Image Voxels))
    (out_size : triple Z) (is_label : bool) (n_jobs : option Z) :
  Forall2 (at_ref h) imgs ims ->
  (forall k, proj3 k out_size <> 0) ->
  n_jobs = None \/ (exists n, n_jobs = Some n /\ 1 <= n) ->
  exists outs h',
    resample_images_standardize Voxels resample_voxels cpu_count imgs out_size is_label
      n_jobs h = (Ok outs, h')
    /\ extends h h'
    /\ Forall2 (fun r' im =>
                  h' !! r' = Some (standardize_output resample_voxels im out_size is_label))
         outs ims.
Proof.
  intros Hall Hs Hn.
  assert (Hex : forall r im h0, at_ref h0 r im ->
            resample_image_standardize_helper Voxels resample_voxels (r, out_size, is_label) h0
            = (Ok (length h0),
               <[r := with_origin (0, 0, 0)%Q im]> h0
               ++ [standardize_output resample_voxels im out_size is_label])).
  { intros r im h0 Hr. cbn [resample_image_standardize_helper].
    now apply resample_image_standardize_exact. }
  assert (Hfin : forall outs h',
            Forall2 (at_ref h') outs
              (map (fun im => standardize_output resample_voxels im out_size is_label) ims) ->
            Forall2 (fun r' im =>
                       h' !! r' = Some (standardize_output resample_voxels im out_size is_label))
              outs ims).
  { intros outs h' F. apply Forall2_map_r_inv in F.
    eapply Forall2_impl; [exact F|]. intros r' im [E | E]; exact E. }
  unfold resample_images_standardize. destruct (py_eq_int n_jobs 1).
  - destruct (for_each_stage _ (fun r => (r, out_size, is_label)) _
                (sequential_helper _ _ _ Hex) imgs ims [] h Hall) as (outs & h' & E & X & F).
    exists outs, h'. split; [exact E|]. split; [exact X | now apply Hfin].
  - destruct (Pool_accepts n_jobs Hn) as [p Ep]. unfold bind, lift. rewrite Ep.
    destruct (for_each_stage _ (fun r => (r, out_size, is_label)) _
                (worker_helper _ _ _ Hex) imgs ims [] h Hall) as (outs & h' & E & X & F).
    exists outs, h'. split; [exact E|]. split; [exact X | now apply Hfin].
Qed.



End Stages.

(** ** The crop stage, exactly *)

Section CropStage.

Variable Voxels : Type.
Variable extract_voxels : Voxels -> triple Z -> triple Z -> Voxels.
Variable label_bounding_box : Image Voxels -> result BoundingBox.

Implicit Types (h : heap Voxels) (im : Image Voxels) (r : ref).

Local Abbreviation lookup_all h imgs ims :=
  (Forall2 (fun r im => h !! r = Some im) imgs ims).

Lemma lookup_all_app h (tail : list (Image Voxels)) (imgs : list ref)
    (ims : list (Image Voxels)) :
  lookup_all h imgs ims -> lookup_all (h ++ tail) imgs ims.
Proof.
  intros H. eapply Forall2_impl; [exact H|]. intros r im Hr. cbv beta.
  now apply lookup_app_l_Some.
Qed.

Lemma get_imgs_exact h (imgs : list ref) (ims : list (Image Voxels)) :
  lookup_all h imgs ims -> get_imgs Voxels imgs h = (Ok ims, h).
Proof.
  induction 1 as [|r im imgs ims Hr _ IH]; [reflexivity|].
  cbn [get_imgs]. unfold_store. rewrite Hr. cbv beta iota.
  fold (get_imgs Voxels). now rewrite IH.
Qed.

Lemma getitem_exact h r im (bi bj bk : Z * Z) :
  h !! r = Some im ->
  getitem Voxels extract_voxels r bi bj bk h
  = (Ok (length h), h ++ [slice_output extract_voxels im bi bj bk]).
Proof.
  intros Hr. unfold_getitem. unfold_store. rewrite Hr. cbv beta iota.
  unfold slice_output, GetSize, GetSpacing, GetOrigin, GetDirection.
  destruct (img_size im) as [[w hh] l], (img_spacing im) as [[sx sy] sz],
    (img_origin im) as [[ox oy] oz].
  unfold slice_indices. destruct (direction_apply _ _) as [[dx dy] dz]. reflexivity.
Qed.

Lemma crop_one_exact h r im mins fixed dyn (find : bool) (i : nat) (rs0 rs : triple Q) :
  h !! r = Some im ->
  initial_ratios fixed dyn i = Ok rs0 ->
  (if find then solve_ratios Voxels label_bounding_box im else Ok rs0) = Ok rs ->
  crop_one Voxels extract_voxels label_bounding_box mins fixed dyn find i r h
  = (Ok (length h), h ++ [crop_output extract_voxels mins rs im]).
Proof.
  intros Hr Hi Hrs. unfold_crop_one. unfold bind at 1. unfold lift at 1. rewrite Hi.
  unfold bind at 1. unfold get_img at 1. rewrite Hr. cbv beta iota.
  unfold bind at 1.
  assert (E : (if find then lift Voxels (solve_ratios Voxels label_bounding_box im)
               else ret rs0) h = (Ok rs, h)).
  { destruct find; unfold lift, ret; [now rewrite Hrs | congruence]. }
  rewrite E. unfold crop_output, GetSize.
  destruct (crop_ranges _ _ _) as [[bi bj] bk]. now apply getitem_exact.
Qed.

(** The loop with an empty ratio list, when the ratios in force are
    [ratio_for im] for each volume. *)
Lemma crop_loop_exact mins fixed (find : bool) (ratio_for : Image Voxels -> triple Q)
    (imgs : list ref) :
  forall (ims : list (Image Voxels)) (i : nat) (new : list ref) h,
    lookup_all h imgs ims ->
    Forall (fun im => (if find then solve_ratios Voxels label_bounding_box im
                       else Ok fixed) = Ok (ratio_for im)) ims ->
    exists outs,
      crop_loop Voxels extract_voxels label_bounding_box mins fixed [] find i imgs new h
      = (Ok (new ++ outs),
         h ++ map (fun im => crop_output extract_voxels mins (ratio_for im) im) ims)
      /\ Forall2 (fun r' im =>
                    (h ++ map (fun im => crop_output extract_voxels mins (ratio_for im) im) ims)
                      !! r'
                    = Some (crop_output extract_voxels mins (ratio_for im) im))
           outs ims.
Proof.
  induction imgs as [|r imgs IH]; intros ims i new h Hall Hrs.
  - apply Forall2_nil_inv_l in Hall. subst ims. exists [].
    cbn [crop_loop map]. rewrite !app_nil_r. split; [reflexivity | constructor].
  - apply Forall2_cons_inv_l in Hall. destruct Hall as (im & ims' & Hr & Hrest & ->).
    apply Forall_cons in Hrs. destruct Hrs as [Hrs Hrs'].
    step_crop_loop. unfold bind.
    rewrite (crop_one_exact h r im mins fixed [] find i fixed (ratio_for im) Hr
               (initial_ratios_empty fixed i) Hrs).
    destruct (IH ims' (S i) (new ++ [length h])
                (h ++ [crop_output extract_voxels mins (ratio_for im) im])
                (lookup_all_app _ _ _ _ Hrest) Hrs') as (outs & E & F).
    exists (length h :: outs). rewrite E. cbn [map].
    rewrite <- !app_assoc. cbn [app]. split; [reflexivity|].
    constructor.
    + now apply list_lookup_middle.
    + rewrite <- app_assoc in F. exact F.
Qed.

(** The shape of a cropped volume. *)
Lemma crop_output_shape mins (rs : triple Q) im :
  (forall k, 0 <= proj3 k mins <= proj3 k (img_size im)) ->
  unit_ratios rs ->
  img_size (crop_output extract_voxels mins rs im) = mins
  /\ img_spacing (crop_output extract_voxels mins rs im) = img_spacing im
  /\ img_direction (crop_output extract_voxels mins rs im) = img_direction im.
Proof.
  intros Hm Hrs. unfold crop_output, crop_ranges, slice_output.
  pose proof (Hm axis_x) as Mx. pose proof (Hm axis_y) as My. pose proof (Hm axis_z) as Mz.
  pose proof (Hrs axis_x) as Rx. pose proof (Hrs axis_y) as Ry. pose proof (Hrs axis_z) as Rz.
  destruct (img_size im) as [[w hh] l], mins as [[w_min h_min] l_min],
    rs as [[rx ry] rz], (img_spacing im) as [[sx sy] sz], (img_origin im) as [[ox oy] oz].
  cbn [proj3 fst snd] in *.
  destruct (crop_bounds_floor w w_min rx Mx Rx) as (_ & Sx & Lx & Ux).
  destruct (crop_bounds_floor hh h_min ry My Ry) as (_ & Sy & Ly & Uy).
  destruct (crop_bounds_floor l l_min rz Mz Rz) as (_ & Sz & Lz & Uz).
  rewrite !slice_indices_inside by lia.
  destruct (direction_apply _ _) as [[dx dy] dz].
  cbn [img_size img_spacing img_direction]. repeat split.
  f_equal; [f_equal|]; lia.
Qed.

(** The crop target is non-negative and below every extent. *)
Lemma crop_target_below (ims : list (Image Voxels)) im :
  im ∈ ims -> Forall nonnegative_shape ims ->
  forall k, 0 <= proj3 k (find_shape_extrema ims).1 <= proj3 k (img_size im).
Proof.
  intros Hin Hnn k. rewrite find_shape_extrema_min.
  assert (Hx : forall x, x ∈ extents k ims ->
                 exists im', im' ∈ ims /\ x = proj3 k (img_size im')).
  { intros x Hx. unfold extents in Hx. apply list_elem_of_In, in_map_iff in Hx.
    destruct Hx as (im' & <- & Hin'). exists im'. split; [|reflexivity].
    now apply list_elem_of_In. }
  assert (Hi : proj3 k (img_size im) ∈ extents k ims).
  { unfold extents. apply list_elem_of_In, in_map_iff. exists im.
    split; [reflexivity | now apply list_elem_of_In]. }
  revert Hx Hi. generalize (extents k ims). intros xs Hx Hi. split.
  - destruct (fold_min_attained xs 1000) as [E | E]; [rewrite E; lia|].
    destruct (Hx _ E) as (im' & Hin' & ->).
    rewrite Forall_forall in Hnn. apply (Hnn im' Hin').
  - pose proof (fold_min_lower xs 1000) as H.
    rewrite Forall_forall in H. apply (H _ Hi).
Qed.

(** A proper box gives ratios, and they lie in the unit interval. *)
Lemma solve_ratios_proper im b :
  label_bounding_box im = Ok b -> proper_box im b ->
  exists rs, solve_ratios Voxels label_bounding_box im = Ok rs /\ unit_ratios rs.
Proof.
  intros Hb Hp.
  assert (Hax : forall k, exists q,
            dynamic_ratio (proj3 k (bb_start b)) (end_from_end k im b) = Ok q
            /\ (0 <= q <= 1)%Q).
  { intros k. destruct (Hp k) as (Hs & He & Hnz).
    destruct (dynamic_ratio_formula (proj3 k (bb_start b)) (end_from_end k im b))
      as [F1 F2].
    destruct (Z_gt_le_dec (proj3 k (bb_start b)) (end_from_end k im b)) as [Hc | Hc].
    - eexists. split; [apply F1; lia|].
      eapply dynamic_ratio_unit_interval; [exact Hs | exact He | apply F1; lia].
    - eexists. split; [apply F2; lia|].
      eapply dynamic_ratio_unit_interval; [exact Hs | exact He | apply F2; lia]. }
  destruct (Hax axis_x) as (qx & Ex & Ux), (Hax axis_y) as (qy & Ey & Uy),
    (Hax axis_z) as (qz & Ez & Uz).
  exists (qx, qy, qz). split.
  - unfold_solve_ratios. rewrite Hb. unfold end_from_end in Ex, Ey, Ez.
    destruct b as [[[sx sy] sz] [[px py] pz]].
    cbn [bb_start bb_span proj3 fst snd] in *.
    unfold GetWidth, GetHeight, GetDepth. unfold GetSize in Ex, Ey, Ez.
    now rewrite Ex, Ey, Ez.
  - intros k. destruct k; assumption.
Qed.

End CropStage.

Lemma Forall2_with_right {A B} (P R : A -> B -> Prop) (Q : B -> Prop)
    (l : list A) (k : list B) :
  Forall2 P l k -> Forall Q k -> (forall x y, P x y -> Q y -> R x y) -> Forall2 R l k.
Proof.
  intros H. induction H as [|x y l k Hxy _ IH]; intros HQ HR; [constructor|].
  apply Forall_cons in HQ. destruct HQ as [Hy HQ].
  constructor; [now apply HR | now apply IH].
Qed.

Section CropResults.

Variable Voxels : Type.
Variable extract_voxels : Voxels -> triple Z -> triple Z -> Voxels.
Variable label_bounding_box : Image Voxels -> result BoundingBox.

Implicit Types (h : heap Voxels) (im : Image Voxels) (r : ref).

Lemma positive_shapes_nonnegative (ims : list (Image Voxels)) :
  Forall positive_shape ims -> Forall nonnegative_shape ims.
Proof.
  intros H. eapply Forall_impl; [exact H|]. intros im Hp k. specialize (Hp k). lia.
Qed.

Lemma crop_exact_fixed h (imgs : list ref) (ims : list (Image Voxels)) (fixed : triple Q) :
  Forall2 (fun r im => h !! r = Some im) imgs ims ->
  exists outs,
    crop_images_to_common_dimensions Voxels extract_voxels label_bounding_box
      imgs fixed [] false h
    = (Ok outs,
       h ++ map (crop_output extract_voxels (find_shape_extrema ims).1 fixed) ims)
    /\ Forall2 (fun r' im =>
                  (h ++ map (crop_output extract_voxels (find_shape_extrema ims).1 fixed) ims)
                    !! r'
                  = Some (crop_output extract_voxels (find_shape_extrema ims).1 fixed im))
         outs ims.
Proof.
  intros Hall. unfold_crop. unfold bind, ret.
  rewrite (get_imgs_exact Voxels h imgs ims Hall).
  destruct (find_shape_extrema ims) as [mins maxs]. cbn [fst].
  destruct (crop_loop_exact Voxels extract_voxels label_bounding_box mins fixed false
              (fun _ => fixed) imgs ims 0%nat [] h Hall) as (outs & E & F).
  { apply Forall_forall. intros im _. reflexivity. }
  exists outs. rewrite E. split; [reflexivity | exact F].
Qed.

Lemma crop_exact_adaptive h (imgs : list ref) (ims : list (Image Voxels))
    (fixed : triple Q) (ratio_for : Image Voxels -> triple Q) :
  Forall2 (fun r im => h !! r = Some im) imgs ims ->
  Forall (fun im => solve_ratios Voxels label_bounding_box im = Ok (ratio_for im)) ims ->
  exists outs,
    crop_images_to_common_dimensions Voxels extract_voxels label_bounding_box
      imgs fixed [] true h
    = (Ok (outs, []),
       h ++ map (fun im => crop_output extract_voxels (find_shape_extrema ims).1
                             (ratio_for im) im) ims)
    /\ Forall2 (fun r' im =>
                  (h ++ map (fun im => crop_output extract_voxels (find_shape_extrema ims).1
                                         (ratio_for im) im) ims) !! r'
                  = Some (crop_output extract_voxels (find_shape_extrema ims).1
                            (ratio_for im) im))
         outs ims.
Proof.
  intros Hall Hrs. unfold_crop. unfold bind, ret.
  rewrite (get_imgs_exact Voxels h imgs ims Hall).
  destruct (find_shape_extrema ims) as [mins maxs]. cbn [fst].
  destruct (crop_loop_exact Voxels extract_voxels label_bounding_box mins fixed true
              ratio_for imgs ims 0%nat [] h Hall Hrs) as (outs & E & F).
  exists outs. rewrite E. split; [reflexivity | exact F].
Qed.



End CropResults.

(** ** The whole pipeline *)

Lemma Forall2_map_r_intro {A B C} (P : A -> C -> Prop) (g : B -> C) (l : list A)
    (k : list B) :
  Forall2 (fun x y => P x (g y)) l k -> Forall2 P l (map g k).
Proof. induction 1; cbn [map]; constructor; assumption. Qed.

Section EndToEnd.

Variable Voxels : Type.
Variable resample_voxels :
  Image Voxels -> triple Z -> triple Q -> triple Q -> list Q -> Q -> Interpolator -> Voxels.
Variable extract_voxels : Voxels -> triple Z -> triple Z -> Voxels.
Variable label_bounding_box : Image Voxels -> result BoundingBox.
Variable cpu_count : Z.

Implicit Types (h : heap Voxels) (im : Image Voxels) (r : ref).

Lemma standardized_shapes h (outs : list ref) (cs : list (Image Voxels))
    (out_size : triple Z) (is_label : bool) :
  Forall2 (fun r' c => at_ref h r' (standardize_output resample_voxels c out_size is_label))
    outs cs ->
  Forall (fun r' => exists v, h !! r' = Some v /\ img_size v = out_size) outs.
Proof.
  induction 1 as [|r' c outs cs Hr _ IH]; constructor; [|exact IH].
  eexists. split; [destruct Hr as [Hr | Hr]; exact Hr | reflexivity].
Qed.


End EndToEnd.

(** ** Resampling a directory *)

Section DirectoryRuns.

Variable Voxels : Type.
Variable resample_voxels :
  Image Voxels -> triple Z -> triple Q -> triple Q -> list Q -> Q -> Interpolator -> Voxels.
Variable cpu_count : Z.
Variable listdir : string -> result (list string).
Variable ReadImage : string -> string -> result (Image Voxels).
Variable ReadSeries : string -> result (Image Voxels).

Implicit Types (h : heap Voxels) (im : Image Voxels).

(** The pool size line 172-175 settle on. *)
Lemma pool_size_legal (n : Z) :
  1 <= cpu_count -> n = -1 \/ 1 <= n ->
  (if py_eq_int (Some n) 0 then Ok true else py_lt_int (Some n) (-1)) = Ok false
  /\ exists p,
       match (if py_eq_int (Some n) (-1) then Ok (Some cpu_count)
              else match py_gt_int (Some n) cpu_count with
                   | Ok true => Ok (Some cpu_count)
                   | Ok false => Ok (Some n)
                   | Raise e => Raise e
                   end) with
       | Ok n_jobs' => Pool cpu_count n_jobs'
       | Raise e => Raise e
       end = Ok p
       /\ p = (if (n =? -1) || (n >? cpu_count) then cpu_count else n).
Proof.
  intros Hc Hn. unfold py_eq_int, py_lt_int, py_gt_int, Pool. split.
  - assert (E0 : (n =? 0) = false) by lia. assert (E1 : (n <? -1) = false) by lia.
    now rewrite E0, E1.
  - assert (Ec : (cpu_count <? 1) = false) by lia.
    destruct (n =? -1) eqn:E2; cbn [orb].
    + rewrite Ec. now eexists.
    + destruct (n >? cpu_count) eqn:E3.
      * rewrite Ec. now eexists.
      * assert (En : (n <? 1) = false) by lia. rewrite En. now eexists.
Qed.

Lemma for_each_worker_raises {A B} (helper : A -> M Voxels B) (e : exn) (a : A)
    (rest : list A) (results : list B) h :
  (helper a h).1 = Raise e ->
  for_each Voxels (in_worker Voxels helper) (a :: rest) results h = (Raise e, h).
Proof.
  intros H. cbn [for_each]. unfold bind, in_worker. now rewrite H.
Qed.

Lemma for_each_worker_values {A B} (helper : A -> M Voxels B) (value : A -> B)
    (args : list A) h :
  (forall a, a ∈ args -> (helper a h).1 = Ok (value a)) ->
  forall results,
    for_each Voxels (in_worker Voxels helper) args results h
    = (Ok (results ++ map value args), h).
Proof.
  induction args as [|a args IH]; intros Hv results; cbn [for_each map].
  - now rewrite app_nil_r.
  - unfold bind, in_worker at 1. rewrite (Hv a) by constructor. cbn [fst].
    rewrite IH by (intros a' Ha'; apply Hv; now constructor).
    now rewrite <- app_assoc.
Qed.

(** X12. Called without a reader name ([image=None], the default) or
    with a name other than the two it knows, on a directory that is not
    empty and with a legal worker count, [resample_directory] fails with
    [UnboundLocalError]: the helper never binds [original]. *)
Theorem resample_directory_unknown_reader h (input_directory output_directory : string)
    (out_size : triple Z) (is_label : bool) (image : option string)
    (output_type : string) (n : Z) (name : string) (names : list string) :
  1 <= cpu_count -> n = -1 \/ 1 <= n ->
  listdir input_directory = Ok (name :: names) ->
  image <> Some "GDCMImageIO"%string -> image <> Some "NiftiImageIO"%string ->
  resample_directory Voxels resample_voxels cpu_count listdir ReadImage ReadSeries
    input_directory output_directory out_size is_label image output_type (Some n) h
  = (Raise UnboundLocalError, h).
Proof.
  intros Hc Hn Hl Hg Hi.
  destruct (pool_size_legal n Hc Hn) as (E0 & p & Ep & _).
  unfold_resample_directory. unfold bind at 1. unfold lift at 1. rewrite E0.
  cbv beta iota. unfold bind at 1. unfold lift at 1. rewrite Hl. cbv beta iota.
  cbn [is_not_None orb map]. unfold bind at 1. unfold lift at 1.
  destruct (if py_eq_int (Some n) (-1) then _ else _) as [n_jobs'|e]; [|discriminate].
  unfold bind at 1. unfold lift at 1. rewrite Ep. unfold bind at 1.
  rewrite for_each_worker_raises with (e := UnboundLocalError); [reflexivity|].
  unfold resample_directory_helper, bind, lift. cbn [arg_image].
  destruct image as [io|]; [|reflexivity].
  destruct (String.eqb_spec io "GDCMImageIO"); [subst; congruence|].
  destruct (String.eqb_spec io "NiftiImageIO"); [subst; congruence|]. reflexivity.
Qed.

(** Where the helper writes: the extension is added only to names
    without a dot. *)
Lemma helper_writes_nifti h (args : helper_args) (original : Image Voxels) :
  arg_image args = Some "NiftiImageIO"%string ->
  ReadImage (arg_input_file_path args) "NiftiImageIO" = Ok original ->
  (forall k, proj3 k (arg_out_size args) <> 0) ->
  (resample_directory_helper Voxels resample_voxels ReadImage ReadSeries args h).1
  = Ok (if contains_char "." (arg_file_name args) then arg_output_file_path args
        else String.append (arg_output_file_path args)
               (String.append "." (arg_output_type args)),
        standardize_output resample_voxels original (arg_out_size args)
          (arg_is_label args)).
Proof.
  intros Hio Hread Hsz. unfold resample_directory_helper.
  rewrite Hio. cbn [String.eqb Ascii.eqb Bool.eqb andb]. rewrite Hread.
  unfold bind at 1. unfold lift at 1. unfold bind at 1. unfold alloc at 1.
  unfold bind at 1.
  rewrite (resample_image_standardize_exact Voxels resample_voxels (h ++ [original])
             (length h) original (arg_out_size args) (arg_is_label args)).
  - unfold bind, get_img, ret.
    rewrite list_lookup_middle by now rewrite length_insert.
    cbn [fst]. destruct (contains_char "." (arg_file_name args)); reflexivity.
  - left. now apply list_lookup_middle.
  - exact Hsz.
Qed.


End DirectoryRuns.

(** ** Reading and validating directories *)

Lemma insert_sorted_elem (x y : string) (l : list string) :
  y ∈ insert_sorted x l <-> y = x \/ y ∈ l.
Proof.
  induction l as [|z l IH]; cbn [insert_sorted].
  - rewrite list_elem_of_singleton. split; [auto | intros [H | H]; [exact H | inversion H]].
  - destruct (String.leb x z).
    + now rewrite elem_of_cons.
    + rewrite !elem_of_cons, IH. tauto.
Qed.

Lemma py_sorted_elem (y : string) (l : list string) : y ∈ py_sorted l <-> y ∈ l.
Proof.
  induction l as [|x l IH]; cbn [py_sorted foldr]; [reflexivity|].
  fold (py_sorted l). now rewrite insert_sorted_elem, elem_of_cons, IH.
Qed.

Lemma insert_sorted_length (x : string) (l : list string) :
  length (insert_sorted x l) = S (length l).
Proof.
  induction l as [|z l IH]; cbn [insert_sorted]; [reflexivity|].
  destruct (String.leb x z); cbn [length]; [reflexivity | now rewrite IH].
Qed.

Lemma py_sorted_length (l : list string) : length (py_sorted l) = length l.
Proof.
  induction l as [|x l IH]; cbn [py_sorted foldr]; [reflexivity|].
  fold (py_sorted l). now rewrite insert_sorted_length, IH.
Qed.

(** The model of [sorted] does sort: its result is ordered. *)
Lemma insert_sorted_ordered (x : string) (l : list string) :
  Sorted (fun a b => String.leb a b = true) l ->
  Sorted (fun a b => String.leb a b = true) (insert_sorted x l).
Proof.
  induction 1 as [|z l Hs IH Hd]; cbn [insert_sorted]; [repeat constructor|].
  destruct (String.leb x z) eqn:E.
  - constructor; [now constructor | now constructor].
  - constructor; [exact IH|].
    assert (Hzx : String.leb z x = true).
    { destruct (String.leb_total x z) as [H | H]; [congruence | exact H]. }
    destruct l as [|w l]; cbn [insert_sorted]; [now constructor|].
    destruct (String.leb x w); constructor; [exact Hzx|].
    now inversion Hd.
Qed.

Lemma py_sorted_ordered (l : list string) :
  Sorted (fun a b => String.leb a b = true) (py_sorted l).
Proof.
  induction l as [|x l IH]; cbn [py_sorted foldr]; [constructor|].
  now apply insert_sorted_ordered.
Qed.

Lemma get_images_count_cases (len n : Z) :
  0 <= len ->
  (n = -1 -> get_images_count len n = len)
  /\ (0 <= n -> get_images_count len n = Z.min len n)
  /\ (n < -1 -> get_images_count len n = Z.max 0 (len + n)).
Proof.
  intros Hl. unfold get_images_count, slice_index.
  destruct (n =? -1) eqn:E1; cbn [negb].
  - assert (E : (len <? 0) = false) by lia. rewrite E. repeat split; intros Hn; lia.
  - destruct (Z.min len n <? 0) eqn:E2; repeat split; intros Hn; lia.
Qed.

Section ReadingFiles.

Variable Voxels : Type.
Variable listdir : string -> result (list string).
Variable ReadFile : string -> result (Image Voxels).

Implicit Types (h : heap Voxels).

Lemma read_all (mk : string -> string) (file : string -> Image Voxels)
    (names : list string) :
  (forall name, name ∈ names -> ReadFile (mk name) = Ok (file name)) ->
  forall (results : list ref) h,
    exists outs,
      for_each Voxels (read_image Voxels ReadFile) (map mk names) results h
      = (Ok (results ++ outs), h ++ map file names)
      /\ Forall2 (fun r' name => (h ++ map file names) !! r' = Some (file name)) outs names.
Proof.
  induction names as [|name names IH]; intros Hread results h.
  - exists []. cbn [for_each map]. rewrite !app_nil_r. split; [reflexivity | constructor].
  - cbn [for_each map]. unfold bind at 1. unfold read_image at 1.
    unfold bind at 1. unfold lift, alloc. rewrite (Hread name) by constructor.
    destruct (IH (fun p Hp => Hread p (list_elem_of_further _ _ _ Hp))
                (results ++ [length h]) (h ++ [file name])) as (outs & E & F).
    rewrite E. exists (length h :: outs).
    rewrite <- !app_assoc. cbn [app]. split; [reflexivity|].
    constructor; [now apply list_lookup_middle|].
    rewrite <- app_assoc in F. exact F.
Qed.

(** X14. [get_images] reads the files of a directory in sorted name
    order and returns them in that order.  It reads them all for
    [n = -1], the first [min(len, n)] for [n >= 0], and, for [n] below
    -1, all but the last [-n] (none when there are fewer). *)
Theorem get_images_reads_sorted_prefix h (directory : string) (n : Z)
    (names : list string) (file : string -> Image Voxels) :
  listdir directory = Ok names ->
  (forall name, name ∈ names -> ReadFile (path_join directory name) = Ok (file name)) ->
  exists outs h',
    get_images Voxels listdir ReadFile directory n h = (Ok outs, h')
    /\ Forall2 (fun r' name => h' !! r' = Some (file name)) outs
         (take (Z.to_nat (get_images_count (Z.of_nat (length names)) n)) (py_sorted names))
    /\ (n = -1 -> length outs = length names)
    /\ (0 <= n -> Z.of_nat (length outs) = Z.min (Z.of_nat (length names)) n)
    /\ (n < -1 -> Z.of_nat (length outs) = Z.max 0 (Z.of_nat (length names) + n)).
Proof.
  intros Hl Hread. unfold get_images. unfold bind at 1. unfold lift. rewrite Hl.
  cbv beta iota zeta. rewrite length_map, py_sorted_length.
  set (c := get_images_count (Z.of_nat (length names)) n).
  rewrite firstn_map.
  set (kept := take (Z.to_nat c) (py_sorted names)).
  assert (Hkept : forall name, name ∈ kept -> name ∈ names).
  { intros name Hin. apply py_sorted_elem. subst kept.
    now apply (subseteq_take (Z.to_nat c) (py_sorted names)). }
  destruct (read_all (fun name => path_join directory name) file kept
              (fun name Hin => Hread name (Hkept name Hin)) [] h) as (outs & E & F).
  exists outs, (h ++ map file kept). split; [exact E|]. split; [exact F|].
  assert (Hlen : length outs = Nat.min (Z.to_nat c) (length names)).
  { rewrite (Forall2_length _ _ _ F). subst kept.
    now rewrite length_take, py_sorted_length. }
  destruct (get_images_count_cases (Z.of_nat (length names)) n ltac:(lia))
    as (C1 & C2 & C3).
  fold c in C1, C2, C3. repeat split; intros Hn.
  - rewrite Hlen, (C1 Hn). lia.
  - rewrite Hlen, (C2 Hn). lia.
  - rewrite Hlen, (C3 Hn). lia.
Qed.

End ReadingFiles.

(** *** Names and their keys *)

Lemma split_on_cons (c : ascii) (s : string) :
  exists piece rest, split_on c s = piece :: rest.
Proof.
  induction s as [|c' s IH]; cbn [split_on]; [now eexists _, _|].
  destruct (Ascii.eqb c' c); [now eexists _, _|].
  destruct IH as (piece & rest & ->). now eexists _, _.
Qed.

Lemma split_on_absent (c : ascii) (s : string) :
  contains_char c s = false -> split_on c s = [s].
Proof.
  induction s as [|c' s IH]; cbn [split_on contains_char]; [reflexivity|].
  rewrite (Ascii.eqb_sym c' c). destruct (Ascii.eqb c c'); [discriminate|].
  intros H. now rewrite (IH H).
Qed.

Lemma split_on_first (c : ascii) (a b : string) :
  contains_char c a = false ->
  split_on c (String.append a (String c b)) = a :: split_on c b.
Proof.
  induction a as [|c' a IH]; cbn [split_on contains_char String.append].
  - intros _. now rewrite Ascii.eqb_refl.
  - rewrite (Ascii.eqb_sym c' c). destruct (Ascii.eqb c c'); [discriminate|].
    intros H. now rewrite (IH H).
Qed.

Lemma contains_char_append (c : ascii) (a b : string) :
  contains_char c (String.append a b) = contains_char c a || contains_char c b.
Proof.
  induction a as [|c' a IH]; cbn [contains_char String.append]; [reflexivity|].
  destruct (Ascii.eqb c c'); [reflexivity | exact IH].
Qed.

Lemma stem_keeps_absence (c d : ascii) (s : string) :
  contains_char c s = false ->
  contains_char c (hd EmptyString (split_on d s)) = false.
Proof.
  induction s as [|c' s IH]; cbn [split_on contains_char]; [reflexivity|].
  destruct (Ascii.eqb c c') eqn:E; [discriminate|]. intros H.
  destruct (Ascii.eqb c' d); [reflexivity|].
  destruct (split_on_cons d s) as (piece & rest & Es). rewrite Es in IH |- *.
  cbn [hd contains_char] in IH |- *. rewrite E. now apply IH.
Qed.

(** X15. The key by which [validate_bucket_download] pairs files is
    the part of the name between its first '-' and its first '.': all
    of "<prefix>-<id>.<extension>" but the id is ignored. *)
Theorem name_key_is_the_id (prefix id extension : string) :
  contains_char "-" prefix = false -> contains_char "." prefix = false ->
  contains_char "-" id = false -> contains_char "." id = false ->
  name_key (String.append prefix (String "-" (String.append id (String "." extension))))
  = id.
Proof.
  intros Hp1 Hp2 Hi1 Hi2. unfold name_key.
  assert (E : String.append prefix
                (String "-" (String.append id (String "." extension)))
              = String.append (String.append prefix (String "-" id)) (String "." extension)).
  { clear. induction prefix as [|c p IH]; cbn [String.append]; [reflexivity|].
    now rewrite IH. }
  rewrite E, split_on_first.
  - cbn [hd]. rewrite split_on_first by exact Hp1.
    rewrite split_on_absent by exact Hi1. cbn [tail String.concat]. reflexivity.
  - rewrite contains_char_append, Hp2. cbn [orb contains_char]. exact Hi2.
Qed.

Lemma name_key_without_dash (file_name : string) :
  contains_char "-" file_name = false -> name_key file_name = EmptyString.
Proof.
  intros H. unfold name_key.
  rewrite split_on_absent by now apply stem_keeps_absence. reflexivity.
Qed.

Lemma check_pairs_outcome (pairs : list (string * string)) :
  (check_pairs pairs = ReturnsTrue
   <-> Forall (fun p => name_key p.1 = name_key p.2) pairs)
  /\ (check_pairs pairs = ReturnsTrue \/ check_pairs pairs = RaisesNameError).
Proof.
  induction pairs as [|p pairs [IH1 IH2]]; cbn [check_pairs].
  - split; [|now left]. split; [constructor | reflexivity].
  - destruct (String.eqb_spec (name_key p.2) (name_key p.1)) as [E | E]; cbn [negb].
    + split; [|exact IH2]. rewrite IH1, Forall_cons. intuition congruence.
    + split; [|now right]. rewrite Forall_cons. split; [discriminate|].
      intros [H _]. congruence.
Qed.

Section Validation.

Variable listdir : string -> result (list string).

(** X16. When both directories can be listed,
    [validate_bucket_download] returns [True] exactly when they hold
    the same number of names and, both lists sorted, the names at each
    position have the same key; in every other case it ends in
    [NameError], raised while the message of the intended
    [FileNotFoundError] is built. *)
Theorem validate_bucket_download_outcome (images_path masks_path : string)
    (images_list masks_list : list string) :
  listdir masks_path = Ok masks_list ->
  listdir images_path = Ok images_list ->
  (validate_bucket_download listdir images_path masks_path = ReturnsTrue
   <-> length masks_list = length images_list
       /\ Forall (fun p => name_key p.1 = name_key p.2)
            (combine (py_sorted images_list) (py_sorted masks_list)))
  /\ (validate_bucket_download listdir images_path masks_path = ReturnsTrue
      \/ validate_bucket_download listdir images_path masks_path = RaisesNameError).
Proof.
  intros Hm Hi. unfold validate_bucket_download. rewrite Hm, Hi.
  destruct (Nat.eqb_spec (length masks_list) (length images_list)) as [E | E]; cbn [negb].
  - destruct (check_pairs_outcome (combine (py_sorted images_list) (py_sorted masks_list)))
      as [C1 C2].
    split; [|exact C2]. rewrite C1. tauto.
  - split; [|now right]. split; [discriminate | tauto].
Qed.

(** X17. Names without a '-' all have the empty key: two directories
    with the same number of such names pass the validation whatever
    the names are. *)
Theorem validate_accepts_names_without_dash (images_path masks_path : string)
    (images_list masks_list : list string) :
  listdir masks_path = Ok masks_list ->
  listdir images_path = Ok images_list ->
  length masks_list = length images_list ->
  Forall (fun name => contains_char "-" name = false) (images_list ++ masks_list) ->
  validate_bucket_download listdir images_path masks_path = ReturnsTrue.
Proof.
  intros Hm Hi Hlen Hnd. unfold validate_bucket_download. rewrite Hm, Hi.
  rewrite (proj2 (Nat.eqb_eq _ _) Hlen). cbn [negb].
  apply (proj1 (check_pairs_outcome _)). apply Forall_forall. intros [i m] Hin.
  apply list_elem_of_In in Hin.
  pose proof (in_combine_l _ _ _ _ Hin) as Hil.
  pose proof (in_combine_r _ _ _ _ Hin) as Hml.
  apply list_elem_of_In in Hil. rewrite py_sorted_elem in Hil.
  apply list_elem_of_In in Hml. rewrite py_sorted_elem in Hml.
  rewrite Forall_forall in Hnd. cbn [fst snd].
  rewrite (name_key_without_dash i), (name_key_without_dash m).
  - reflexivity.
  - apply Hnd. apply elem_of_app. now right.
  - apply Hnd. apply elem_of_app. now left.
Qed.

End Validation.

(** ** More on the solver, the ratio list and the worker count *)

Section MoreCropping.

Variable Voxels : Type.
Variable resample_voxels :
  Image Voxels -> triple Z -> triple Q -> triple Q -> list Q -> Q -> Interpolator -> Voxels.
Variable extract_voxels : Voxels -> triple Z -> triple Z -> Voxels.
Variable label_bounding_box : Image Voxels -> result BoundingBox.
Variable cpu_count : Z.

Implicit Types (h : heap Voxels) (im : Image Voxels) (r : ref).

(** X18. For a foreground box that lies inside the volume and does not
    fill any axis from face to face, the solver emits three ratios and
    each lies in [0,1]. *)
Theorem solver_ratios_in_unit_interval im (b : BoundingBox) :
  label_bounding_box im = Ok b ->
  proper_box im b ->
  exists ratios,
    solve_ratios Voxels label_bounding_box im = Ok ratios
    /\ forall k, (0 <= proj3 k ratios <= 1)%Q.
Proof.
  intros Hb Hp.
  destruct (solve_ratios_proper Voxels label_bounding_box im b Hb Hp) as (rs & E & U).
  exists rs. split; [exact E | exact U].
Qed.

Lemma initial_ratios_listed (fixed : triple Q) (dyn : list (triple Q)) (i : nat)
    (rs : triple Q) :
  dyn !! i = Some rs -> initial_ratios fixed dyn i = Ok rs.
Proof.
  intros H. unfold initial_ratios. destruct dyn as [|d dyn]; [discriminate|].
  now rewrite H.
Qed.

Lemma crop_loop_listed mins fixed (dyn : list (triple Q)) (imgs : list ref) :
  forall (ims : list (Image Voxels)) (rs : list (triple Q)) (i : nat) (new : list ref) h,
    Forall2 (fun r im => h !! r = Some im) imgs ims ->
    length rs = length imgs ->
    (forall j x, rs !! j = Some x -> dyn !! (i + j)%nat = Some x) ->
    exists outs,
      crop_loop Voxels extract_voxels label_bounding_box mins fixed dyn false i imgs new h
      = (Ok (new ++ outs),
         h ++ map (fun p => crop_output extract_voxels mins p.2 p.1) (combine ims rs))
      /\ Forall2 (fun r' p =>
                    (h ++ map (fun p => crop_output extract_voxels mins p.2 p.1)
                            (combine ims rs)) !! r'
                    = Some (crop_output extract_voxels mins p.2 p.1))
           outs (combine ims rs).
Proof.
  induction imgs as [|r imgs IH]; intros ims rs i new h Hall Hlen Hdyn.
  - apply Forall2_nil_inv_l in Hall. subst ims. exists [].
    cbn [crop_loop combine map]. rewrite !app_nil_r. split; [reflexivity | constructor].
  - apply Forall2_cons_inv_l in Hall. destruct Hall as (im & ims' & Hr & Hrest & ->).
    destruct rs as [|x rs]; [discriminate|]. cbn [length] in Hlen.
    step_crop_loop. unfold bind.
    rewrite (crop_one_exact Voxels extract_voxels label_bounding_box h r im mins fixed
               dyn false i x x Hr).
    2:{ apply initial_ratios_listed. rewrite <- (Nat.add_0_r i). now apply Hdyn. }
    2:{ reflexivity. }
    destruct (IH ims' rs (S i) (new ++ [length h])
                (h ++ [crop_output extract_voxels mins x im])) as (outs & E & F).
    + eapply Forall2_impl; [exact Hrest|]. intros r0 im0 H0. cbv beta.
      now apply lookup_app_l_Some.
    + lia.
    + intros j y Hj. replace (S i + j)%nat with (i + S j)%nat by lia. now apply Hdyn.
    + exists (length h :: outs). rewrite E. cbn [combine map fst snd].
      rewrite <- !app_assoc. cbn [app]. split; [reflexivity|].
      constructor; [now apply list_lookup_middle|].
      rewrite <- app_assoc in F. exact F.
Qed.


(** X20. [resample_images] and [resample_images_standardize] hand
    [n_jobs] to the pool as it is: any count below 1 (0, -1, ...) makes
    them raise [ValueError] before a single volume is touched. *)
Theorem list_resamplers_reject_small_pools h (imgs : list ref) (out_spacing : triple Q)
    (out_size : triple Z) (is_label : bool) (n : Z) :
  n < 1 ->
  resample_images Voxels resample_voxels cpu_count imgs out_spacing is_label (Some n) h
  = (Raise ValueError, h)
  /\ resample_images_standardize Voxels resample_voxels cpu_count imgs out_size is_label
       (Some n) h = (Raise ValueError, h).
Proof.
  intros Hn. unfold resample_images, resample_images_standardize, py_eq_int.
  assert (E1 : (n =? 1) = false) by lia. assert (E2 : (n <? 1) = true) by lia.
  rewrite E1. unfold bind, lift, Pool. now rewrite E2.
Qed.

End MoreCropping.

Section DirectoryCounts.

Variable Voxels : Type.
Variable resample_voxels :
  Image Voxels -> triple Z -> triple Q -> triple Q -> list Q -> Q -> Interpolator -> Voxels.
Variable cpu_count : Z.
Variable listdir : string -> result (list string).
Variable ReadImage : string -> string -> result (Image Voxels).
Variable ReadSeries : string -> result (Image Voxels).

(** X21. [resample_directory] rejects [n_jobs = 0] and every
    [n_jobs] below -1 with [ValueError] before it lists the directory:
    the call fails the same way on a directory that cannot be listed,
    and the store is untouched. *)
Theorem resample_directory_rejects_illegal_counts (h : heap Voxels)
    (input_directory output_directory : string) (out_size : triple Z) (is_label : bool)
    (image : option string) (output_type : string) (n : Z) :
  n = 0 \/ n < -1 ->
  resample_directory Voxels resample_voxels cpu_count listdir ReadImage ReadSeries
    input_directory output_directory out_size is_label image output_type (Some n) h
  = (Raise ValueError, h).
Proof.
  intros Hn. unfold_resample_directory. unfold bind, lift, raise, py_eq_int, py_lt_int.
  destruct (n =? 0) eqn:E0; [reflexivity|].
  assert (E1 : (n <? -1) = true) by lia. now rewrite E1.
Qed.

End DirectoryCounts.

(** ** The further statements at concrete inputs *)

Lemma pool_resampling_leaves_inputs_witness :
  py_eq_int (Some 2) 1 = false
  /\ exists tail,
       (resample_images Phantom phantom_resample 4 [0; 1]%nat unit_spacing true (Some 2)
          paired_dataset).2 = paired_dataset ++ tail.
Proof.
  split; [reflexivity|].
  apply (pool_resampling_leaves_inputs Phantom phantom_resample 4 [0; 1]%nat unit_spacing
           (cube 4) true (Some 2) paired_dataset eq_refl).
Defined.



Lemma resample_image_same_spacing_witness :
  [offset_phantom] !! 0%nat = Some offset_phantom
  /\ exists v' h',
       resample_image Phantom phantom_resample 0%nat (img_spacing offset_phantom) true
         [offset_phantom] = (Ok 1%nat, h')
       /\ h' !! 1%nat = Some v'
       /\ img_size v' = img_size offset_phantom.
Proof.
  split; [reflexivity|].
  destruct (resample_image_same_spacing Phantom phantom_resample [offset_phantom] 0%nat
              offset_phantom true eq_refl) as (v' & h' & E & L & S & _).
  - intros k. destruct k; vm_compute; discriminate.
  - exists v', h'. exact (conj E (conj L S)).
Defined.

Lemma paired_dataset_images :
  Forall2 (fun r im => paired_dataset !! r = Some im) [0; 1]%nat
    [phantom 10 4 4; phantom 6 1 4].
Proof. repeat constructor. Defined.

Lemma paired_dataset_masks :
  Forall2 (fun r im => paired_dataset !! r = Some im) [2; 3]%nat
    [phantom 10 4 4; phantom 6 1 4].
Proof. repeat constructor. Defined.

Lemma unit_spacing_positive : forall k, (0 < proj3 k unit_spacing)%Q.
Proof. intros k. destruct k; reflexivity. Defined.

Lemma cube_4_positive : forall k, 0 < proj3 k (cube 4).
Proof. intros k. destruct k; reflexivity. Defined.

Lemma cube_4_nonzero : forall k, proj3 k (cube 4) <> 0.
Proof. intros k. destruct k; discriminate. Defined.



Lemma paired_dataset_positive :
  Forall positive_shape [phantom 10 4 4; phantom 6 1 4].
Proof. repeat constructor; intros k; destruct k; reflexivity. Defined.


Lemma paired_dataset_proper_boxes :
  Forall (fun im => exists b, phantom_bounding_box im = Ok b /\ proper_box im b)
    [phantom 10 4 4; phantom 6 1 4].
Proof.
  repeat constructor.
  - exists (mkBox (cube 4) (cube 4)). split; [reflexivity|].
    intros k. destruct k; vm_compute; repeat split; try discriminate; intros [H _]; discriminate.
  - exists (mkBox (cube 1) (cube 4)). split; [reflexivity|].
    intros k. destruct k; vm_compute; repeat split; try discriminate; intros [H _]; discriminate.
Defined.



Lemma resample_directory_unknown_reader_witness :
  demo_listdir "scans" = Ok ["img-002.nii"; "img-001"]%string
  /\ resample_directory Phantom phantom_resample 4 demo_listdir demo_ReadImage
       demo_ReadSeries "scans" "out" (cube 4) false None "nii" (Some (-1)) []
     = (Raise UnboundLocalError, []).
Proof.
  split; [reflexivity|].
  apply (resample_directory_unknown_reader Phantom phantom_resample 4 demo_listdir
           demo_ReadImage demo_ReadSeries [] "scans" "out" (cube 4) false None "nii" (-1)
           "img-002.nii" ["img-001"]%string);
    [lia | now left | reflexivity | discriminate | discriminate].
Defined.


Lemma get_images_reads_sorted_prefix_witness :
  demo_listdir "scans" = Ok ["img-002.nii"; "img-001"]%string
  /\ exists outs h',
       get_images Phantom demo_listdir demo_ReadFile "scans" 5 [] = (Ok outs, h')
       /\ length outs = 2%nat.
Proof.
  split; [reflexivity|].
  destruct (get_images_reads_sorted_prefix Phantom demo_listdir demo_ReadFile [] "scans" 5
              ["img-002.nii"; "img-001"]%string demo_file eq_refl)
    as (outs & h' & E & _ & _ & L & _); [reflexivity|].
  exists outs, h'. split; [exact E|].
  specialize (L ltac:(lia)). cbn [length] in L. lia.
Defined.

Lemma name_key_is_the_id_witness :
  name_key "img-002.nii" = "002"%string
  /\ name_key "seg-002.nii.gz" = "002"%string.
Proof.
  split.
  - apply (name_key_is_the_id "img" "002" "nii"); reflexivity.
  - apply (name_key_is_the_id "seg" "002" "nii.gz"); reflexivity.
Defined.

Lemma validate_bucket_download_outcome_witness :
  demo_listdir "labels" = Ok ["seg-001.nii.gz"; "seg-002.nii"]%string
  /\ demo_listdir "scans" = Ok ["img-002.nii"; "img-001"]%string
  /\ validate_bucket_download demo_listdir "scans" "labels" = ReturnsTrue.
Proof.
  split; [reflexivity|]. split; [reflexivity|].
  apply (validate_bucket_download_outcome demo_listdir "scans" "labels"
           ["img-002.nii"; "img-001"]%string ["seg-001.nii.gz"; "seg-002.nii"]%string
           eq_refl eq_refl).
  split; [reflexivity|]. repeat constructor.
Defined.

Lemma validate_accepts_names_without_dash_witness :
  demo_listdir "plain" = Ok ["b.nii"; "a.nii"]%string
  /\ validate_bucket_download demo_listdir "plain" "plain" = ReturnsTrue.
Proof.
  split; [reflexivity|].
  apply (validate_accepts_names_without_dash demo_listdir "plain" "plain"
           ["b.nii"; "a.nii"]%string ["b.nii"; "a.nii"]%string eq_refl eq_refl eq_refl).
  repeat constructor.
Defined.

Lemma solver_ratios_in_unit_interval_witness :
  phantom_bounding_box (phantom 10 4 4) = Ok (mkBox (cube 4) (cube 4))
  /\ exists ratios,
       solve_ratios Phantom phantom_bounding_box (phantom 10 4 4) = Ok ratios
       /\ forall k, (0 <= proj3 k ratios <= 1)%Q.
Proof.
  split; [reflexivity|].
  apply (solver_ratios_in_unit_interval Phantom phantom_bounding_box (phantom 10 4 4)
           (mkBox (cube 4) (cube 4)) eq_refl).
  intros k. destruct k; vm_compute; repeat split; try discriminate; intros [H _]; discriminate.
Defined.


Lemma list_resamplers_reject_small_pools_witness :
  0 < 1
  /\ resample_images Phantom phantom_resample 1 [0; 1]%nat unit_spacing true (Some 0)
       paired_dataset = (Raise ValueError, paired_dataset).
Proof.
  split; [lia|].
  apply (list_resamplers_reject_small_pools Phantom phantom_resample 1 paired_dataset
           [0; 1]%nat unit_spacing (cube 4) true 0). lia.
Defined.

Lemma resample_directory_rejects_illegal_counts_witness :
  resample_directory Phantom phantom_resample 4 demo_listdir demo_ReadImage
    demo_ReadSeries "nowhere" "out" (cube 4) false (Some "NiftiImageIO"%string) "nii"
    (Some (-2)) [] = (Raise ValueError, []).
Proof.
  apply (resample_directory_rejects_illegal_counts Phantom phantom_resample 4 demo_listdir
           demo_ReadImage demo_ReadSeries [] "nowhere" "out" (cube 4) false
           (Some "NiftiImageIO"%string) "nii" (-2)).
  right. lia.
Defined.
